(** * Face-Heal-AI prototype: the analysis pipeline and the scan page

    A shallow embedding of [services/geminiService.ts] (credential checks,
    credential-error recovery, the fence-stripping / parsing / validation
    pipeline of [analyzeSkinImage]) and of the state handling of
    [pages/ScanPage.tsx] (camera stream, capture, upload, retake), with
    the variant of the service that relies on a response schema,
    [utils/imageUtils.ts] and what [pages/ResultsPage.tsx] computes from a
    result.

    JavaScript strings are sequences of UTF-16 code units, JavaScript values
    are the values [JSON.parse] can produce plus [undefined], thrown errors
    are [Error] objects, and the module-level flag of the service is threaded
    through a small state-and-exception monad. *)

From Stdlib Require Import List NArith ZArith Bool Lia String Ascii.
Import ListNotations.

Set Implicit Arguments.
Set Warnings "-register-all".

(* ================================================================== *)
(** * JavaScript strings and the built-ins the source calls on them   *)
(* ================================================================== *)

Module JS.

Local Open Scope N_scope.

(** A string is its list of UTF-16 code units. *)
Definition jsstring := list N.

(** The string constants of the source, all ASCII, are written as Rocq
    string literals. *)
Fixpoint js (s : string) : jsstring :=
  match s with
  | EmptyString => []
  | String c r => N_of_ascii c :: js r
  end.

(** JSON samples are written with single quotes standing for the double
    quote (code unit 34). *)
Definition jsq (s : string) : jsstring :=
  map (fun c => if c =? 39 then 34 else c) (js s).

(** The double quote. *)
Definition dquote : jsstring := [34].

(** [a === b] on strings. *)
Fixpoint str_eqb (a b : jsstring) : bool :=
  match a, b with
  | [], [] => true
  | x :: a', y :: b' => (x =? y) && str_eqb a' b'
  | _, _ => false
  end.

(** ECMAScript WhiteSpace and LineTerminator code points: what
    [String.prototype.trim] removes. *)
Definition isWhiteSpace (c : N) : bool :=
  (c =? 9) || (c =? 10) || (c =? 11) || (c =? 12) || (c =? 13) || (c =? 32)
  || (c =? 160) || (c =? 5760) || ((8192 <=? c) && (c <=? 8202))
  || (c =? 8232) || (c =? 8233) || (c =? 8239) || (c =? 8287)
  || (c =? 12288) || (c =? 65279).

Fixpoint trimStart (s : jsstring) : jsstring :=
  match s with
  | [] => []
  | c :: r => if isWhiteSpace c then trimStart r else s
  end.

Definition trimEnd (s : jsstring) : jsstring := rev (trimStart (rev s)).

(** [s.trim()] *)
Definition trim (s : jsstring) : jsstring := trimEnd (trimStart s).

(** [s] is white space only. *)
Definition all_ws (s : jsstring) : bool := forallb isWhiteSpace s.

(** [s.startsWith(p)] *)
Fixpoint startsWith (p s : jsstring) : bool :=
  match p, s with
  | [], _ => true
  | x :: p', y :: s' => (x =? y) && startsWith p' s'
  | _ :: _, [] => false
  end.

(** [s.endsWith(p)] *)
Definition endsWith (p s : jsstring) : bool := startsWith (rev p) (rev s).

(** [s.includes(p)] *)
Fixpoint includes (p s : jsstring) : bool :=
  startsWith p s ||
  match s with
  | [] => false
  | _ :: r => includes p r
  end.

(** [s.substring(n)] for [n <= s.length] *)
Definition substring_from (n : nat) (s : jsstring) : jsstring := skipn n s.

(** [s.substring(0, n)] for [n <= s.length] *)
Definition substring_to (n : nat) (s : jsstring) : jsstring := firstn n s.

(** Truthiness of a string: only the empty string is falsy. *)
Definition nonempty (s : jsstring) : bool :=
  match s with [] => false | _ :: _ => true end.

(* ------------------------------------------------------------------ *)
(** ** Values                                                          *)
(* ------------------------------------------------------------------ *)

(** A number as [JSON.parse] reads it: the decimal [mant * 10 ^ expo] of the
    literal. The pipeline only asks a number for its type and its
    truthiness, so the binary64 value is not computed; [rounds_to_zero]
    says when that value is a zero. *)
Record number : Type := Num { mant : Z; expo : Z }.

(** The binary64 nearest to [mant * 10 ^ expo] is [+0] or [-0]: the decimal
    is zero, or its magnitude is at most [2 ^ -1075], half the smallest
    subnormal (a tie rounds to the even neighbour, zero). *)
Definition rounds_to_zero (n : number) : bool :=
  ((mant n =? 0)
   || ((expo n <? 0) && (Z.abs (mant n) * 2 ^ 1075 <=? 10 ^ (- expo n))))%Z.

Inductive jsval : Type :=
| JUndefined
| JNull
| JBool (b : bool)
| JNumber (n : number)
| JString (s : jsstring)
| JArray (items : list jsval)
| JObject (fields : list (jsstring * jsval)).

(** The result of [typeof]. *)
Inductive jstype : Type :=
| Tundefined | Tobject | Tboolean | Tnumber | Tstring.

Definition typeof (v : jsval) : jstype :=
  match v with
  | JUndefined => Tundefined
  | JNull => Tobject
  | JBool _ => Tboolean
  | JNumber _ => Tnumber
  | JString _ => Tstring
  | JArray _ => Tobject
  | JObject _ => Tobject
  end.

Definition jstype_eqb (a b : jstype) : bool :=
  match a, b with
  | Tundefined, Tundefined | Tobject, Tobject | Tboolean, Tboolean
  | Tnumber, Tnumber | Tstring, Tstring => true
  | _, _ => false
  end.

(** ToBoolean: [!v] is [negb (truthy v)]. *)
Definition truthy (v : jsval) : bool :=
  match v with
  | JUndefined => false
  | JNull => false
  | JBool b => b
  | JNumber n => negb (rounds_to_zero n)
  | JString s => nonempty s
  | JArray _ => true
  | JObject _ => true
  end.

(** Own data property of an object, first binding of the key. *)
Fixpoint lookup (k : jsstring) (fields : list (jsstring * jsval)) : jsval :=
  match fields with
  | [] => JUndefined
  | (k', v) :: r => if str_eqb k' k then v else lookup k r
  end.

(** [v.k] / [v[k]] for a value that is neither [null] nor [undefined], and a
    property name that is neither an index, [length], nor a member of a
    built-in prototype (every name the pipeline reads is of that sort):
    primitives and arrays have no such property. *)
Definition get (v : jsval) (k : jsstring) : jsval :=
  match v with
  | JObject fields => lookup k fields
  | _ => JUndefined
  end.

(** [v === null] *)
Definition is_null (v : jsval) : bool :=
  match v with JNull => true | _ => false end.

(** [v.every(p)]; the source calls it on arrays only. *)
Definition Array_every (p : jsval -> bool) (v : jsval) : bool :=
  match v with JArray items => forallb p items | _ => false end.

(** [Array.isArray(v)] *)
Definition Array_isArray (v : jsval) : bool :=
  match v with JArray _ => true | _ => false end.

(** [strs.includes(v)] for an array literal of strings: SameValueZero
    matches a string element only against an equal string. *)
Definition Array_includes (strs : list jsstring) (v : jsval) : bool :=
  match v with
  | JString s => existsb (str_eqb s) strs
  | _ => false
  end.

(** Assignment [o.k = v] on an object's own properties: an existing key
    keeps its place, a new key goes last. *)
Fixpoint set_field (k : jsstring) (v : jsval) (fields : list (jsstring * jsval))
  : list (jsstring * jsval) :=
  match fields with
  | [] => [(k, v)]
  | (k', v') :: r =>
      if str_eqb k' k then (k', v) :: r else (k', v') :: set_field k v r
  end.

Definition set (o : jsval) (k : jsstring) (v : jsval) : jsval :=
  match o with
  | JObject fields => JObject (set_field k v fields)
  | _ => o
  end.

End JS.

(* ================================================================== *)
(** * [JSON.parse]                                                     *)
(* ================================================================== *)

(** The built-in parser, after the JSON grammar of ECMA-404: a recursive
    descent whose fuel bounds the nesting of calls. A duplicate key keeps
    its first place and the last value, as in [JSON.parse]. The fields of
    an object are kept in the order of the text (JavaScript enumerates
    index-like keys first; the pipeline never enumerates an object). *)
Module JSON.

Import JS.
Local Open Scope N_scope.

Definition is_json_ws (c : N) : bool :=
  (c =? 32) || (c =? 9) || (c =? 10) || (c =? 13).

Fixpoint skip_ws (s : jsstring) : jsstring :=
  match s with
  | [] => []
  | c :: r => if is_json_ws c then skip_ws r else s
  end.

Definition is_digit (c : N) : bool := (48 <=? c) && (c <=? 57).

Definition hex_digit (c : N) : option N :=
  if (48 <=? c) && (c <=? 57) then Some (c - 48)
  else if (97 <=? c) && (c <=? 102) then Some (c - 87)
  else if (65 <=? c) && (c <=? 70) then Some (c - 55)
  else None.

Definition hex4 (a b c d : N) : option N :=
  match hex_digit a, hex_digit b, hex_digit c, hex_digit d with
  | Some x, Some y, Some z, Some w => Some (((x * 16 + y) * 16 + z) * 16 + w)
  | _, _, _, _ => None
  end.

(** The single-character escapes: quote, backslash, slash, b, f, n, r, t. *)
Definition unescape (c : N) : option N :=
  if c =? 34 then Some 34
  else if c =? 92 then Some 92
  else if c =? 47 then Some 47
  else if c =? 98 then Some 8
  else if c =? 102 then Some 12
  else if c =? 110 then Some 10
  else if c =? 114 then Some 13
  else if c =? 116 then Some 9
  else None.

(** The characters of a string literal after its opening quote, up to and
    including the closing quote; [acc] holds the decoded units, reversed. *)
Fixpoint parse_string_chars (s acc : jsstring) : option (jsstring * jsstring) :=
  match s with
  | [] => None
  | c :: r =>
      if c =? 34 then Some (rev acc, r)
      else if c =? 92 then
        match r with
        | [] => None
        | e :: r' =>
            if e =? 117 then
              match r' with
              | h1 :: h2 :: h3 :: h4 :: r'' =>
                  match hex4 h1 h2 h3 h4 with
                  | Some u => parse_string_chars r'' (u :: acc)
                  | None => None
                  end
              | _ => None
              end
            else
              match unescape e with
              | Some u => parse_string_chars r' (u :: acc)
              | None => None
              end
        end
      else if c <? 32 then None
      else parse_string_chars r (c :: acc)
  end.

(** The longest run of decimal digits at the head of [s]. *)
Fixpoint span_digits (s : jsstring) : list N * jsstring :=
  match s with
  | c :: r =>
      if is_digit c then let (ds, rest) := span_digits r in (c :: ds, rest)
      else ([], s)
  | [] => ([], [])
  end.

Definition digits_value (ds : list N) : Z :=
  fold_left (fun acc d => (acc * 10 + Z.of_N (d - 48))%Z) ds 0%Z.

(** A number literal: an optional minus sign; an integer part that is a
    single 0 or starts with a non-zero digit; an optional fraction (a dot
    and at least one digit); an optional exponent (e or E, an optional
    sign, at least one digit). *)
Definition parse_sign (s : jsstring) : bool * jsstring :=
  match s with
  | c :: r => if c =? 45 then (true, r) else (false, s)
  | [] => (false, s)
  end.

Definition parse_int (s : jsstring) : option (list N * jsstring) :=
  match s with
  | c :: r =>
      if c =? 48 then Some ([c], r)
      else if is_digit c then Some (span_digits s)
      else None
  | [] => None
  end.

Definition parse_frac (s : jsstring) : option (list N * jsstring) :=
  match s with
  | c :: r =>
      if c =? 46 then
        match span_digits r with
        | ([], _) => None
        | (fds, s') => Some (fds, s')
        end
      else Some ([], s)
  | [] => Some ([], s)
  end.

Definition parse_exp_sign (s : jsstring) : bool * jsstring :=
  match s with
  | c :: r =>
      if c =? 45 then (true, r)
      else if c =? 43 then (false, r)
      else (false, s)
  | [] => (false, s)
  end.

Definition parse_exp (s : jsstring) : option (Z * jsstring) :=
  match s with
  | c :: r =>
      if (c =? 101) || (c =? 69) then
        let (eneg, r1) := parse_exp_sign r in
        match span_digits r1 with
        | ([], _) => None
        | (eds, s') =>
            Some ((if eneg then - digits_value eds else digits_value eds)%Z, s')
        end
      else Some (0%Z, s)
  | [] => Some (0%Z, s)
  end.

Definition parse_number (s : jsstring) : option (jsval * jsstring) :=
  let (neg, s1) := parse_sign s in
  match parse_int s1 with
  | None => None
  | Some (ids, s2) =>
      match parse_frac s2 with
      | None => None
      | Some (fds, s3) =>
          match parse_exp s3 with
          | None => None
          | Some (e, s4) =>
              let m := digits_value (ids ++ fds) in
              Some (JNumber (Num (if neg then - m else m)%Z
                                 (e - Z.of_nat (List.length fds))%Z), s4)
          end
      end
  end.

Fixpoint parse_value (fuel : nat) (s : jsstring) : option (jsval * jsstring) :=
  match fuel with
  | O => None
  | S f =>
      match skip_ws s with
      | [] => None
      | c :: r =>
          if c =? 123 then
            match skip_ws r with
            | c' :: r' =>
                if c' =? 125 then Some (JObject [], r')
                else parse_members f r []
            | [] => None
            end
          else if c =? 91 then
            match skip_ws r with
            | c' :: r' =>
                if c' =? 93 then Some (JArray [], r')
                else parse_elements f r []
            | [] => None
            end
          else if c =? 34 then
            match parse_string_chars r [] with
            | Some (str, r') => Some (JString str, r')
            | None => None
            end
          else if startsWith (js "true") (c :: r) then
            Some (JBool true, skipn 4 (c :: r))
          else if startsWith (js "false") (c :: r) then
            Some (JBool false, skipn 5 (c :: r))
          else if startsWith (js "null") (c :: r) then
            Some (JNull, skipn 4 (c :: r))
          else parse_number (c :: r)
      end
  end

with parse_elements (fuel : nat) (s : jsstring) (acc : list jsval)
  : option (jsval * jsstring) :=
  match fuel with
  | O => None
  | S f =>
      match parse_value f s with
      | None => None
      | Some (v, r) =>
          match skip_ws r with
          | c :: r' =>
              if c =? 44 then parse_elements f r' (v :: acc)
              else if c =? 93 then Some (JArray (rev (v :: acc)), r')
              else None
          | [] => None
          end
      end
  end

with parse_members (fuel : nat) (s : jsstring) (acc : list (jsstring * jsval))
  : option (jsval * jsstring) :=
  match fuel with
  | O => None
  | S f =>
      match skip_ws s with
      | c :: r =>
          if c =? 34 then
            match parse_string_chars r [] with
            | None => None
            | Some (k, r1) =>
                match skip_ws r1 with
                | c1 :: r2 =>
                    if c1 =? 58 then
                      match parse_value f r2 with
                      | None => None
                      | Some (v, r3) =>
                          match skip_ws r3 with
                          | c3 :: r4 =>
                              if c3 =? 44 then
                                parse_members f r4 (set_field k v acc)
                              else if c3 =? 125 then
                                Some (JObject (set_field k v acc), r4)
                              else None
                          | [] => None
                          end
                      end
                    else None
                | [] => None
                end
            end
          else None
      | [] => None
      end
  end.

(** [r] is what is left of [s] after reading a prefix. *)
Definition rest_of (r s : jsstring) : Prop := exists pre, s = pre ++ r.

(** [JSON.parse(s)]: [None] stands for the [SyntaxError] it throws. Every
    nested call consumes a character at least every second step, so the
    fuel below is never the reason for a [None] (lemma
    [parse_fuel_enough]). *)
Definition parse (s : jsstring) : option jsval :=
  match parse_value (2 * List.length s + 2) s with
  | Some (v, r) =>
      match skip_ws r with
      | [] => Some v
      | _ :: _ => None
      end
  | None => None
  end.

End JSON.

(* ================================================================== *)
(** * services/geminiService.ts                                        *)
(* ================================================================== *)

Module GeminiService.

Import JS.
Local Open Scope list_scope.

(** ** Thrown values, promises, the host *)

(** A thrown [Error] object: its [name] and its [message], a string,
    which the recovery code allows to be absent. *)
Record JsError : Type := MkError {
  err_name : jsstring;
  err_message : option jsstring
}.

(** [new Error(m)] *)
Definition Error (m : jsstring) : JsError :=
  {| err_name := js "Error"; err_message := Some m |}.

(** [new TypeError(m)], raised by the engine on a call of [undefined]. *)
Definition TypeError (m : jsstring) : JsError :=
  {| err_name := js "TypeError"; err_message := Some m |}.

(** How an awaited promise settles. *)
Inductive settled (A : Type) : Type :=
| Resolved (a : A)
| Rejected (e : JsError).
Arguments Resolved {A} a.
Arguments Rejected {A} e.

(** [window.aistudio]: each method may be undefined ([None]). *)
Record AIStudio : Type := {
  hasSelectedApiKey : option (settled bool);
  openSelectKey : option (settled unit)
}.

(** What the service reads from its surroundings: the environment
    credential ([None] when [process], [process.env] or [API_KEY] is
    undefined), the optional credential picker, the remote model (from the
    MIME type and the image data to the [text] of the response, or the
    error of the call; a response without text makes [response.text.trim()]
    throw inside the [try], like a failed call) and the message the engine
    puts in the [SyntaxError] of [JSON.parse]. *)
Record Host : Type := {
  process_env_API_KEY : option jsstring;
  window_aistudio : option AIStudio;
  generateContent : jsstring -> jsstring -> settled jsstring;
  SyntaxError_message : jsstring -> jsstring
}.

(** The module-level flag of the service, with a count of the calls made to
    the remote model and to the picker. *)
Record State : Type := {
  hasUserSelectedApiKeyAssumeSuccess : bool;
  generateContent_calls : nat;
  openSelectKey_calls : nat
}.

(** [let hasUserSelectedApiKeyAssumeSuccess = false] *)
Definition initial_state : State :=
  {| hasUserSelectedApiKeyAssumeSuccess := false;
     generateContent_calls := 0;
     openSelectKey_calls := 0 |}.

(** ** The monad of async functions over the module state *)

Definition M (A : Type) : Type := State -> settled A * State.

Definition ret {A} (a : A) : M A := fun st => (Resolved a, st).

Definition throw {A} (e : JsError) : M A := fun st => (Rejected e, st).

Definition bind {A B} (m : M A) (k : A -> M B) : M B :=
  fun st =>
    match m st with
    | (Resolved a, st') => k a st'
    | (Rejected e, st') => (Rejected e, st')
    end.

(** [try { m } catch (e) { h e }] *)
Definition try_catch {A} (m : M A) (h : JsError -> M A) : M A :=
  fun st =>
    match m st with
    | (Resolved a, st') => (Resolved a, st')
    | (Rejected e, st') => h e st'
    end.

Declare Scope js_scope.
Delimit Scope js_scope with js_scope.
Notation "x <- m ;; k" := (bind m (fun x => k))
  (at level 61, m at next level, right associativity) : js_scope.
Notation "m ;; k" := (bind m (fun _ => k))
  (at level 61, right associativity) : js_scope.
Local Open Scope js_scope.

Definition await {A} (p : settled A) : M A := fun st => (p, st).

Definition read_flag : M bool :=
  fun st => (Resolved (hasUserSelectedApiKeyAssumeSuccess st), st).

Definition write_flag (b : bool) : M unit :=
  fun st =>
    (Resolved tt,
     {| hasUserSelectedApiKeyAssumeSuccess := b;
        generateContent_calls := generateContent_calls st;
        openSelectKey_calls := openSelectKey_calls st |}).

Definition not_a_function : JsError :=
  TypeError (js "window.aistudio.openSelectKey is not a function").

(** Reading [openSelectKey] off an undefined [window.aistudio]; the text
    is the engine's, here as V8 words it. *)
Definition aistudio_undefined : JsError :=
  TypeError (js "Cannot read properties of undefined (reading 'openSelectKey')").

(** [await window.aistudio.openSelectKey()] *)
Definition call_openSelectKey (h : Host) : M unit :=
  match window_aistudio h with
  | Some a =>
      match openSelectKey a with
      | Some outcome =>
          fun st =>
            (outcome,
             {| hasUserSelectedApiKeyAssumeSuccess :=
                  hasUserSelectedApiKeyAssumeSuccess st;
                generateContent_calls := generateContent_calls st;
                openSelectKey_calls := S (openSelectKey_calls st) |})
      | None => throw not_a_function
      end
  | None => throw aistudio_undefined
  end.

(** [await ai.models.generateContent({...})] followed by [response.text] *)
Definition call_generateContent (h : Host) (mimeType base64Image : jsstring)
  : M jsstring :=
  fun st =>
    (generateContent h mimeType base64Image,
     {| hasUserSelectedApiKeyAssumeSuccess :=
          hasUserSelectedApiKeyAssumeSuccess st;
        generateContent_calls := S (generateContent_calls st);
        openSelectKey_calls := openSelectKey_calls st |}).

(** ** Credentials *)

(** [isProcessEnvApiKeySet] (line 29): the key is defined and truthy. *)
Definition isProcessEnvApiKeySet (h : Host) : bool :=
  match process_env_API_KEY h with
  | Some k => nonempty k
  | None => false
  end.

Definition API_KEY_REQUIRED_NO_AISTUDIO : jsstring :=
  js "API_KEY_REQUIRED_NO_AISTUDIO".
Definition API_KEY_SELECTION_FAILED : jsstring :=
  js "API_KEY_SELECTION_FAILED".
Definition API_KEY_RESELECTION_FAILED : jsstring :=
  js "API_KEY_RESELECTION_FAILED".
Definition API_KEY_INVALID_OR_UNSELECTED : jsstring :=
  js "API_KEY_INVALID_OR_UNSELECTED".

(** [checkAndPromptApiKey] (lines 37-64) *)
Definition checkAndPromptApiKey (h : Host) : M unit :=
  match
    match window_aistudio h with
    | Some a => hasSelectedApiKey a
    | None => None
    end
  with
  | None =>
      (* aistudio, or its hasSelectedApiKey, is undefined *)
      if negb (isProcessEnvApiKeySet h)
      then throw (Error API_KEY_REQUIRED_NO_AISTUDIO)
      else write_flag true
  | Some has_key =>
      hasKey <- await has_key ;;
      flag <- read_flag ;;
      if negb hasKey || negb flag
      then try_catch (call_openSelectKey h ;; write_flag true)
                     (fun _ => throw (Error API_KEY_SELECTION_FAILED))
      else ret tt
  end.

(** The text whose presence in a message marks a rejected credential. *)
Definition entity_not_found : jsstring :=
  js "Requested entity was not found.".

(** [error.message && error.message.includes('Requested entity was not
    found.')] *)
Definition matches_signal (error : JsError) : bool :=
  match err_message error with
  | Some m => nonempty m && includes entity_not_found m
  | None => false
  end.

(** [handleApiKeyError] (lines 72-93) *)
Definition handleApiKeyError (h : Host) (error : JsError) : M unit :=
  if matches_signal error then
    write_flag false ;;
    (match
       match window_aistudio h with
       | Some a => openSelectKey a
       | None => None
       end
     with
     | Some _ =>
         try_catch (call_openSelectKey h ;; write_flag true)
                   (fun _ => throw (Error API_KEY_RESELECTION_FAILED))
     | None =>
         if negb (isProcessEnvApiKeySet h)
         then throw (Error API_KEY_REQUIRED_NO_AISTUDIO)
         else ret tt
     end) ;;
    throw (Error API_KEY_INVALID_OR_UNSELECTED)
  else throw error.

(** ** The response pipeline of [analyzeSkinImage] *)

Definition and_then {A B} (r : settled A) (k : A -> settled B) : settled B :=
  match r with
  | Resolved a => k a
  | Rejected e => Rejected e
  end.

(** [for (const x of l) { body x }], where the body may throw. *)
Fixpoint for_of {A} (l : list A) (body : A -> settled unit) : settled unit :=
  match l with
  | [] => Resolved tt
  | x :: r => and_then (body x) (fun _ => for_of r body)
  end.

Definition fence_json : jsstring := js "```json".
Definition fence : jsstring := js "```".

Definition msg_no_api_key : jsstring :=
  js "API_KEY is not defined. Please select an API key to proceed.".
Definition msg_empty : jsstring :=
  js "AI response was empty. Cannot parse JSON.".
Definition msg_only_fences : jsstring :=
  js "AI response contained only markdown fences or was empty after cleaning. Cannot parse JSON.".
Definition msg_not_json (details raw : jsstring) : jsstring :=
  js "AI response is not valid JSON. Details: " ++ details
  ++ js ". Raw response: " ++ raw.
Definition msg_top_level : jsstring :=
  js "AI response is missing critical data or is malformed after parsing. "
  ++ js "Ensure all top-level properties (overallScore, skinType, fitzpatrickScale, "
  ++ js "issues, recommendations, explainability) are present and correctly typed.".
Definition msg_issue_score (key : jsstring) : jsstring :=
  js "AI response issue " ++ dquote ++ key ++ dquote
  ++ js " is missing score or is malformed.".
Definition msg_symmetry_description : jsstring :=
  js "AI response symmetry issue is missing description or is malformed.".
Definition msg_issue_severity (key : jsstring) : jsstring :=
  js "AI response issue " ++ dquote ++ key ++ dquote
  ++ js " is missing severity or is malformed.".
Definition msg_recommendation (key : jsstring) : jsstring :=
  js "AI response recommendation " ++ dquote ++ key ++ dquote
  ++ js " is missing or malformed (expected array of strings).".

(** Lines 255-271: trim, give up on an empty text, drop a leading
    [```json] and a trailing [```], trim again, give up on an empty text. *)
Definition strip_fences (jsonStr : jsstring) : jsstring :=
  let jsonStr :=
    if startsWith fence_json jsonStr
    then substring_from (List.length fence_json) jsonStr
    else jsonStr in
  let jsonStr :=
    if endsWith fence jsonStr
    then substring_to (List.length jsonStr - List.length fence) jsonStr
    else jsonStr in
  trim jsonStr.

Definition clean_response (text : jsstring) : settled jsstring :=
  let jsonStr := trim text in
  if negb (nonempty jsonStr) then Rejected (Error msg_empty)
  else
    let jsonStr := strip_fences jsonStr in
    if negb (nonempty jsonStr) then Rejected (Error msg_only_fences)
    else Resolved jsonStr.

(** Lines 273-279: [JSON.parse], its [SyntaxError] rewrapped with the text. *)
Definition parse_json (h : Host) (jsonStr : jsstring) : settled jsval :=
  match JSON.parse jsonStr with
  | Some v => Resolved v
  | None =>
      Rejected (Error (msg_not_json (SyntaxError_message h jsonStr) jsonStr))
  end.

Definition skinTypes : list jsstring :=
  [js "oily"; js "dry"; js "combination"; js "normal"; js "unknown"].

Definition fitzpatrickScales : list jsstring :=
  [js "I"; js "II"; js "III"; js "IV"; js "V"; js "VI"; js "unknown"].

(** The condition of the [if] of lines 282-290. [get] on [null] is never
    reached in the source: [!parsedResult] short-circuits the rest. *)
Definition top_level_malformed (parsedResult : jsval) : bool :=
  negb (truthy parsedResult)
  || negb (jstype_eqb (typeof (get parsedResult (js "overallScore"))) Tnumber)
  || negb (Array_includes skinTypes (get parsedResult (js "skinType")))
  || negb (Array_includes fitzpatrickScales
             (get parsedResult (js "fitzpatrickScale")))
  || negb (jstype_eqb (typeof (get parsedResult (js "issues"))) Tobject)
  || is_null (get parsedResult (js "issues"))
  || negb (jstype_eqb (typeof (get parsedResult (js "recommendations")))
             Tobject)
  || is_null (get parsedResult (js "recommendations"))
  || negb (truthy (get parsedResult (js "explainability"))).

Definition validate_top_level (parsedResult : jsval) : settled unit :=
  if top_level_malformed parsedResult
  then Rejected (Error msg_top_level)
  else Resolved tt.

Definition requiredIssueKeys : list jsstring :=
  [js "acne"; js "wrinkles"; js "hyperpigmentation"; js "pores";
   js "redness"; js "texture"; js "hydration"; js "oiliness";
   js "darkCircles"; js "symmetry"].

(** The body of the loop of lines 303-322. *)
Definition check_issue (issues : jsval) (key : jsstring) : settled unit :=
  let issue := get issues key in
  if negb (truthy issue)
     || negb (jstype_eqb (typeof (get issue (js "score"))) Tnumber)
  then Rejected (Error (msg_issue_score key))
  else if str_eqb key (js "symmetry") then
    if negb (jstype_eqb (typeof (get issue (js "description"))) Tstring)
    then Rejected (Error msg_symmetry_description)
    else Resolved tt
  else
    if negb (jstype_eqb (typeof (get issue (js "severity"))) Tstring)
    then Rejected (Error (msg_issue_severity key))
    else Resolved tt.

Definition requiredRecommendationKeys : list jsstring :=
  [js "morningRoutine"; js "eveningRoutine"; js "weeklyTreatments";
   js "lifestyleTips"].

(** [item => typeof item === 'string'] *)
Definition is_string (item : jsval) : bool :=
  jstype_eqb (typeof item) Tstring.

(** The body of the loop of lines 327-332. *)
Definition check_recommendation (recommendations : jsval) (key : jsstring)
  : settled unit :=
  let routine := get recommendations key in
  if negb (Array_isArray routine) || negb (Array_every is_string routine)
  then Rejected (Error (msg_recommendation key))
  else Resolved tt.

(** Lines 281-335: the three validations in order, then the parsed value. *)
Definition validate (parsedResult : jsval) : settled jsval :=
  and_then (validate_top_level parsedResult) (fun _ =>
  and_then (for_of requiredIssueKeys
              (check_issue (get parsedResult (js "issues")))) (fun _ =>
  and_then (for_of requiredRecommendationKeys
              (check_recommendation (get parsedResult (js "recommendations"))))
           (fun _ =>
  Resolved parsedResult))).

(** The body of the [try] after the remote call (lines 255-335). *)
Definition handle_response (h : Host) (text : jsstring) : settled jsval :=
  and_then (clean_response text) (fun jsonStr =>
  and_then (parse_json h jsonStr) validate).

(** [analyzeSkinImage] (lines 221-342). *)
Definition analyzeSkinImage (h : Host) (base64Image mimeType : jsstring)
  : M jsval :=
  if negb (isProcessEnvApiKeySet h) then throw (Error msg_no_api_key)
  else
    try_catch
      (text <- call_generateContent h mimeType base64Image ;;
       await (handle_response h text))
      (fun error => handleApiKeyError h error ;; throw error).

(** ** Notions the properties below are stated with *)

(** The same host, its remote model answering [text]. *)
Definition with_response (h : Host) (text : jsstring) : Host :=
  {| process_env_API_KEY := process_env_API_KEY h;
     window_aistudio := window_aistudio h;
     generateContent := fun _ _ => Resolved text;
     SyntaxError_message := SyntaxError_message h |}.

(** The module state after one more call of the remote model. *)
Definition after_call (st : State) : State :=
  {| hasUserSelectedApiKeyAssumeSuccess := hasUserSelectedApiKeyAssumeSuccess st;
     generateContent_calls := S (generateContent_calls st);
     openSelectKey_calls := openSelectKey_calls st |}.

(** The value [parsedResult] holds at line 281, if the call gets there:
    the credential is set, the remote call answers, the cleaned text is
    not empty and parses. *)
Definition parsedResult (h : Host) (base64Image mimeType : jsstring)
  : option jsval :=
  if isProcessEnvApiKeySet h then
    match generateContent h mimeType base64Image with
    | Resolved text =>
        match clean_response text with
        | Resolved jsonStr => JSON.parse jsonStr
        | Rejected _ => None
        end
    | Rejected _ => None
    end
  else None.

(** [t] inside a fence annotated [json], with white space around the
    fence and between the fence and [t]. *)
Definition fenced_json (w0 w1 t w2 w3 : jsstring) : jsstring :=
  w0 ++ fence_json ++ w1 ++ t ++ w2 ++ fence ++ w3.

(** [t] inside a fence without annotation. *)
Definition fenced_bare (w0 w1 t w2 w3 : jsstring) : jsstring :=
  w0 ++ fence ++ w1 ++ t ++ w2 ++ fence ++ w3.

(** The entry of [key] in [issues] lacks what the data model requires: it
    is missing, or its [score] is not a number, or its [description] (for
    symmetry) or [severity] (otherwise) is not a string. *)
Definition issue_malformed (issues : jsval) (key : jsstring) : bool :=
  let entry := get issues key in
  match entry with JUndefined => true | _ => false end
  || negb (jstype_eqb (typeof (get entry (js "score"))) Tnumber)
  || (if str_eqb key (js "symmetry")
      then negb (jstype_eqb (typeof (get entry (js "description"))) Tstring)
      else negb (jstype_eqb (typeof (get entry (js "severity"))) Tstring)).

(** The first required key, in the order of the loop, whose entry is
    malformed. *)
Definition first_malformed_issue (issues : jsval) : option jsstring :=
  find (issue_malformed issues) requiredIssueKeys.

(** The nine issue keys other than symmetry. *)
Definition severityIssueKeys : list jsstring :=
  [js "acne"; js "wrinkles"; js "hyperpigmentation"; js "pores";
   js "redness"; js "texture"; js "hydration"; js "oiliness";
   js "darkCircles"].

(** [v] after [v.issues[key].areas = areas]. *)
Definition with_areas (v : jsval) (key : jsstring) (areas : jsval) : jsval :=
  let issues := get v (js "issues") in
  set v (js "issues")
      (set issues key (set (get issues key) (js "areas") areas)).

(** Every error the validations of lines 281-332 can raise. *)
Definition validation_errors : list JsError :=
  Error msg_top_level
  :: Error msg_symmetry_description
  :: map (fun key => Error (msg_issue_score key)) requiredIssueKeys
  ++ map (fun key => Error (msg_issue_severity key)) requiredIssueKeys
  ++ map (fun key => Error (msg_recommendation key))
         requiredRecommendationKeys.

(** ** Failure kinds *)

(** The source raises plain [Error] objects; callers tell them apart by
    [message] (ScanPage compares it with [===]). The kinds are the names the
    specification gives to these messages. No message of the source stands
    for [InvalidEnum]. *)
Inductive ErrorKind : Type :=
| CredentialMissing
| CredentialRequiredNoPicker
| CredentialSelectionFailed
| CredentialInvalidOrUnselected
| CredentialReselectionFailed
| EmptyResponse
| MalformedJSON
| InvalidTopLevel
| InvalidEnum
| InvalidIssue (key : jsstring)
| InvalidRecommendation (key : jsstring).

Definition issue_kind (m key : jsstring) : bool :=
  str_eqb m (msg_issue_score key)
  || str_eqb m (msg_issue_severity key)
  || (str_eqb key (js "symmetry") && str_eqb m msg_symmetry_description).

Definition message_kind (m : jsstring) : option ErrorKind :=
  if str_eqb m msg_no_api_key then Some CredentialMissing
  else if str_eqb m API_KEY_REQUIRED_NO_AISTUDIO
       then Some CredentialRequiredNoPicker
  else if str_eqb m API_KEY_SELECTION_FAILED
       then Some CredentialSelectionFailed
  else if str_eqb m API_KEY_INVALID_OR_UNSELECTED
       then Some CredentialInvalidOrUnselected
  else if str_eqb m API_KEY_RESELECTION_FAILED
       then Some CredentialReselectionFailed
  else if str_eqb m msg_empty || str_eqb m msg_only_fences
       then Some EmptyResponse
  else if startsWith (js "AI response is not valid JSON. Details: ") m
       then Some MalformedJSON
  else if str_eqb m msg_top_level then Some InvalidTopLevel
  else
    match find (issue_kind m) requiredIssueKeys with
    | Some key => Some (InvalidIssue key)
    | None =>
        match find (fun key => str_eqb m (msg_recommendation key))
                   requiredRecommendationKeys with
        | Some key => Some (InvalidRecommendation key)
        | None => None
        end
    end.

(** The kind of a thrown error, if it is one of the service's own. *)
Definition error_kind (e : JsError) : option ErrorKind :=
  match err_message e with
  | Some m => message_kind m
  | None => None
  end.

(** The message of the error mentions the key. *)
Definition names_key (key : jsstring) (e : JsError) : bool :=
  match err_message e with
  | Some m => includes key m
  | None => false
  end.

End GeminiService.

(* ================================================================== *)
(** * pages/ScanPage.tsx                                               *)
(* ================================================================== *)

(** The component state of [ScanPage], the camera it talks to, and its
    handlers as transitions. A handler runs to completion before the next
    event; [videoRef.current] and [canvasRef.current] are read from what the
    last committed render mounted. *)
Module ScanPage.

Import JS GeminiService.
Local Open Scope list_scope.

Definition StreamId := nat.

(** The camera hardware: [getUserMedia] has handed out the streams
    [0 .. acquired - 1], each call a fresh one; [stops] logs every
    [stream.getTracks().forEach(track => track.stop())]. *)
Record Camera : Type := {
  acquired : nat;
  stops : list StreamId
}.

(** How a call of [navigator.mediaDevices.getUserMedia] settles. *)
Inductive CamOutcome : Type :=
| CamGranted
| CamFailed (name message : jsstring).

(** The [useState] cells (lines 16-26). *)
Record Component : Type := {
  loading : bool;
  isInitializing : bool;
  error : option jsstring;
  stream : option StreamId;
  capturedImage : option jsstring;
  imageMimeType : option jsstring;
  apiKeyRequired : bool;
  cameraEnabled : bool;
  cameraUnavailable : bool
}.

(** The page: its cells, the module state of the service, the camera, the
    [stream] captured by the closure of the effect that ran last (its
    cleanup stops that one), whether the component is mounted, and the
    result handed to [navigate('/results', ...)]. *)
Record Page : Type := {
  ui : Component;
  service : State;
  camera : Camera;
  effect_stream : option StreamId;
  mounted : bool;
  navigated : option jsval
}.

Definition setLoading (b : bool) (c : Component) : Component :=
  {| loading := b; isInitializing := isInitializing c; error := error c;
     stream := stream c; capturedImage := capturedImage c;
     imageMimeType := imageMimeType c; apiKeyRequired := apiKeyRequired c;
     cameraEnabled := cameraEnabled c;
     cameraUnavailable := cameraUnavailable c |}.

Definition setIsInitializing (b : bool) (c : Component) : Component :=
  {| loading := loading c; isInitializing := b; error := error c;
     stream := stream c; capturedImage := capturedImage c;
     imageMimeType := imageMimeType c; apiKeyRequired := apiKeyRequired c;
     cameraEnabled := cameraEnabled c;
     cameraUnavailable := cameraUnavailable c |}.

Definition setError (e : option jsstring) (c : Component) : Component :=
  {| loading := loading c; isInitializing := isInitializing c; error := e;
     stream := stream c; capturedImage := capturedImage c;
     imageMimeType := imageMimeType c; apiKeyRequired := apiKeyRequired c;
     cameraEnabled := cameraEnabled c;
     cameraUnavailable := cameraUnavailable c |}.

Definition setStream (s : option StreamId) (c : Component) : Component :=
  {| loading := loading c; isInitializing := isInitializing c;
     error := error c; stream := s; capturedImage := capturedImage c;
     imageMimeType := imageMimeType c; apiKeyRequired := apiKeyRequired c;
     cameraEnabled := cameraEnabled c;
     cameraUnavailable := cameraUnavailable c |}.

Definition setCapturedImage (i : option jsstring) (c : Component) : Component :=
  {| loading := loading c; isInitializing := isInitializing c;
     error := error c; stream := stream c; capturedImage := i;
     imageMimeType := imageMimeType c; apiKeyRequired := apiKeyRequired c;
     cameraEnabled := cameraEnabled c;
     cameraUnavailable := cameraUnavailable c |}.

Definition setImageMimeType (m : option jsstring) (c : Component) : Component :=
  {| loading := loading c; isInitializing := isInitializing c;
     error := error c; stream := stream c; capturedImage := capturedImage c;
     imageMimeType := m; apiKeyRequired := apiKeyRequired c;
     cameraEnabled := cameraEnabled c;
     cameraUnavailable := cameraUnavailable c |}.

Definition setApiKeyRequired (b : bool) (c : Component) : Component :=
  {| loading := loading c; isInitializing := isInitializing c;
     error := error c; stream := stream c; capturedImage := capturedImage c;
     imageMimeType := imageMimeType c; apiKeyRequired := b;
     cameraEnabled := cameraEnabled c;
     cameraUnavailable := cameraUnavailable c |}.

Definition setCameraEnabled (b : bool) (c : Component) : Component :=
  {| loading := loading c; isInitializing := isInitializing c;
     error := error c; stream := stream c; capturedImage := capturedImage c;
     imageMimeType := imageMimeType c; apiKeyRequired := apiKeyRequired c;
     cameraEnabled := b; cameraUnavailable := cameraUnavailable c |}.

Definition setCameraUnavailable (b : bool) (c : Component) : Component :=
  {| loading := loading c; isInitializing := isInitializing c;
     error := error c; stream := stream c; capturedImage := capturedImage c;
     imageMimeType := imageMimeType c; apiKeyRequired := apiKeyRequired c;
     cameraEnabled := cameraEnabled c; cameraUnavailable := b |}.

Definition with_ui (c : Component) (p : Page) : Page :=
  {| ui := c; service := service p; camera := camera p;
     effect_stream := effect_stream p; mounted := mounted p;
     navigated := navigated p |}.

Definition with_service (st : State) (p : Page) : Page :=
  {| ui := ui p; service := st; camera := camera p;
     effect_stream := effect_stream p; mounted := mounted p;
     navigated := navigated p |}.

Definition with_camera (cam : Camera) (p : Page) : Page :=
  {| ui := ui p; service := service p; camera := cam;
     effect_stream := effect_stream p; mounted := mounted p;
     navigated := navigated p |}.

(** ** What the render mounts (lines 252-361) *)

(** The capture block of lines 301-342 is rendered. *)
Definition capture_ui_shown (c : Component) : bool :=
  negb (isInitializing c) && negb (apiKeyRequired c) && negb (loading c)
  && negb (match capturedImage c with Some i => nonempty i | None => false end).

(** [videoRef.current] is set: the [<video>] of lines 305-312 is mounted. *)
Definition video_mounted (c : Component) : bool :=
  capture_ui_shown c && (cameraEnabled c || cameraUnavailable c)
  && cameraEnabled c.

(** [canvasRef.current] is set: the [<canvas>] of line 319 is mounted. *)
Definition canvas_mounted (c : Component) : bool :=
  capture_ui_shown c && (cameraEnabled c || cameraUnavailable c).

(** The preview block of lines 345-359, with Analyze and Retake. *)
Definition preview_shown (c : Component) : bool :=
  negb (isInitializing c) && negb (apiKeyRequired c) && negb (loading c)
  && match capturedImage c with Some i => nonempty i | None => false end.

(** The credential prompt of lines 273-289. *)
Definition key_prompt_shown (c : Component) : bool :=
  negb (isInitializing c) && apiKeyRequired c.

(** ** The camera *)

(** [getUserMedia] resolving: a fresh stream. *)
Definition acquire (cam : Camera) : StreamId * Camera :=
  (acquired cam, {| acquired := S (acquired cam); stops := stops cam |}).

(** [stream.getTracks().forEach(track => track.stop())] *)
Definition stop_tracks (id : StreamId) (cam : Camera) : Camera :=
  {| acquired := acquired cam; stops := id :: stops cam |}.

(** The streams whose tracks are live: handed out and never stopped. *)
Definition active_streams (cam : Camera) : list StreamId :=
  filter (fun id => negb (existsb (Nat.eqb id) (stops cam)))
         (seq 0 (acquired cam)).

(** How often the tracks of a stream were stopped. *)
Definition stop_count (id : StreamId) (cam : Camera) : nat :=
  count_occ Nat.eq_dec (stops cam) id.

Definition message_text (e : JsError) : jsstring :=
  match err_message e with
  | Some m => m
  | None => js "undefined"
  end.

Definition message_is (e : JsError) (m : jsstring) : bool :=
  match err_message e with
  | Some m' => str_eqb m' m
  | None => false
  end.

(** ** The effect (lines 29-93) *)

(** [init]: reset the cells, check the credential, then ask for the camera.
    The [<video>] element is looked up after the awaits, in the render of
    the cells as they are then: [isInitializing] is set, so the loader is
    on screen (as it is in the first render, before any cell was set). *)
Definition init (h : Host) (cam : CamOutcome) (p : Page) : Page :=
  let c := setCameraUnavailable false (setCameraEnabled false
             (setApiKeyRequired false (setError None
               (setIsInitializing true (ui p))))) in
  match checkAndPromptApiKey h (service p) with
  | (Rejected keyError, st) =>
      let p := with_service st p in
      if message_is keyError API_KEY_REQUIRED_NO_AISTUDIO
         || message_is keyError API_KEY_SELECTION_FAILED
      then
        with_ui
          (setError (Some (js "An API key is required to use this application. Please select one to proceed."))
             (setIsInitializing false (setApiKeyRequired true c))) p
      else
        with_ui
          (setIsInitializing false
             (setError (Some (js "Failed to check API key: "
                              ++ message_text keyError
                              ++ js ". Please try again.")) c)) p
  | (Resolved _, st) =>
      let p := with_service st p in
      let c := setApiKeyRequired false c in
      match cam with
      | CamGranted =>
          let (mediaStream, camera') := acquire (camera p) in
          let c :=
            if video_mounted c
            then setCameraEnabled true (setStream (Some mediaStream) c)
            else c in
          with_camera camera' (with_ui (setIsInitializing false c) p)
      | CamFailed name message =>
          let c := setCameraUnavailable true c in
          let c :=
            if str_eqb name (js "NotAllowedError")
               || str_eqb name (js "PermissionDeniedError")
            then setError (Some (js "Camera access denied. Please grant permission in your browser settings or upload an image.")) c
            else if str_eqb name (js "NotFoundError")
            then setError (Some (js "No camera found on your device. Please upload an image manually.")) c
            else setError (Some (js "Failed to access camera: " ++ message
                                 ++ js ". Please upload an image manually.")) c in
          with_ui (setIsInitializing false c) p
      end
  end.

(** The cleanup returned by the effect (lines 88-92): it stops the stream
    its closure captured. *)
Definition cleanup (p : Page) : Page :=
  match effect_stream p with
  | Some id => with_camera (stop_tracks id (camera p)) p
  | None => p
  end.

Definition initial_component : Component :=
  {| loading := false; isInitializing := true; error := None;
     stream := None; capturedImage := None; imageMimeType := None;
     apiKeyRequired := false; cameraEnabled := false;
     cameraUnavailable := false |}.

(** Mounting the page: the first render and the first run of the effect. *)
Definition mount (h : Host) (cam : CamOutcome) : Page :=
  init h cam
    {| ui := initial_component; service := initial_state;
       camera := {| acquired := 0; stops := [] |};
       effect_stream := None; mounted := true; navigated := None |}.

(** The dependency [[stream]] changed since the effect ran: the old cleanup
    runs, then the effect again, with the new [stream] in its closure. *)
Definition effect_rerun (h : Host) (cam : CamOutcome) (p : Page) : Page :=
  let p := cleanup p in
  init h cam
    {| ui := ui p; service := service p; camera := camera p;
       effect_stream := stream (ui p); mounted := mounted p;
       navigated := navigated p |}.

(** Leaving the page: the last cleanup runs. *)
Definition unmount (p : Page) : Page :=
  let p := cleanup p in
  {| ui := ui p; service := service p; camera := camera p;
     effect_stream := effect_stream p; mounted := false;
     navigated := navigated p |}.

(** ** The handlers *)

(** If a stream is held: stop it, forget it, hide the video (lines 140-144
    and 160-164). *)
Definition release_stream (p : Page) : Page :=
  match stream (ui p) with
  | Some id =>
      with_ui (setCameraEnabled false (setStream None (ui p)))
              (with_camera (stop_tracks id (camera p)) p)
  | None => p
  end.

(** [captureImage] (lines 122-147); [imageData] is what
    [canvas.toDataURL('image/jpeg', 0.9)] returns. *)
Definition captureImage (imageData : jsstring) (p : Page) : Page :=
  let p := with_ui (setError None (ui p)) p in
  if video_mounted (ui p) && canvas_mounted (ui p) then
    let p :=
      with_ui (setImageMimeType (Some (js "image/jpeg"))
                 (setCapturedImage (Some imageData) (ui p))) p in
    release_stream p
  else p.

(** [handleFileChange] (lines 149-172); the file, if one was chosen, is its
    MIME type and how [fileToBase64] settles. *)
Definition handleFileChange (file : option (jsstring * settled jsstring))
  (p : Page) : Page :=
  let p := with_ui (setError None (ui p)) p in
  match file with
  | None => p
  | Some (file_type, converted) =>
      let p := with_ui (setLoading true (ui p)) p in
      let p :=
        match converted with
        | Resolved base64 =>
            let p :=
              with_ui
                (setImageMimeType (Some file_type)
                   (setCapturedImage
                      (Some (js "data:" ++ file_type ++ js ";base64,"
                             ++ base64)) (ui p))) p in
            release_stream p
        | Rejected fileError =>
            with_ui (setError (Some (js "Failed to process image: "
                                     ++ message_text fileError)) (ui p)) p
        end in
      with_ui (setLoading false (ui p)) p
  end.

(** [retakePhoto] (lines 207-244). The [<video>] element is looked up
    after the await, with [loading] set (before the click, the preview was
    on screen: no [<video>] then either). *)
Definition retakePhoto (cam : CamOutcome) (p : Page) : Page :=
  let p :=
    with_ui (setLoading true (setImageMimeType None
               (setCapturedImage None (setError None (ui p))))) p in
  let p :=
    match stream (ui p) with
    | None =>
        match cam with
        | CamGranted =>
            let (mediaStream, camera') := acquire (camera p) in
            let p := with_camera camera' p in
            if video_mounted (ui p)
            then with_ui (setCameraUnavailable false (setCameraEnabled true
                            (setStream (Some mediaStream) (ui p)))) p
            else p
        | CamFailed _ _ =>
            with_ui (setError (Some (js "Failed to re-enable camera. Please upload an image manually."))
                       (setCameraUnavailable true (ui p))) p
        end
    | Some _ =>
        with_ui (setCameraUnavailable false (setCameraEnabled true (ui p))) p
    end in
  with_ui (setLoading false (ui p)) p.

(** [handleSelectApiKey] (lines 95-120). *)
Definition handleSelectApiKey (h : Host) (p : Page) : Page :=
  let p := with_ui (setLoading true (setError None (ui p))) p in
  let p :=
    match call_openSelectKey h (service p) with
    | (Resolved _, st) =>
        let p := with_ui (setApiKeyRequired false (ui p)) (with_service st p) in
        match stream (ui p) with
        | Some _ =>
            with_ui (setCameraUnavailable false
                       (setCameraEnabled true (ui p))) p
        | None => p
        end
    | (Rejected keyError, st) =>
        with_ui (setApiKeyRequired true
                   (setError (Some (js "Failed to select API key: "
                                    ++ message_text keyError
                                    ++ js ". Please try again.")) (ui p)))
                (with_service st p)
    end in
  with_ui (setLoading false (ui p)) p.

(** [capturedImage.split(',')[1]]: what lies between the first comma and
    the next. Every captured image starts with a data-URL prefix. *)
Fixpoint until_comma (s : jsstring) : jsstring :=
  match s with
  | [] => []
  | c :: r => if N.eqb c 44 then [] else c :: until_comma r
  end.

Fixpoint split_comma_1 (s : jsstring) : jsstring :=
  match s with
  | [] => js "undefined"
  | c :: r => if N.eqb c 44 then until_comma r else split_comma_1 r
  end.

(** [handleAnalyze] (lines 174-205). A result navigates to the results
    route, which unmounts the page. *)
Definition handleAnalyze (h : Host) (p : Page) : Page :=
  match capturedImage (ui p), imageMimeType (ui p) with
  | Some image, Some mime =>
      if nonempty image && nonempty mime then
        let p := with_ui (setLoading true (setError None (ui p))) p in
        match analyzeSkinImage h (split_comma_1 image) mime (service p) with
        | (Resolved result, st) =>
            let p := with_ui (setLoading false (ui p)) (with_service st p) in
            unmount
              {| ui := ui p; service := service p; camera := camera p;
                 effect_stream := effect_stream p; mounted := mounted p;
                 navigated := Some result |}
        | (Rejected err, st) =>
            let p := with_service st p in
            let p :=
              match handleApiKeyError h err (service p) with
              | (Resolved _, st') => with_service st' p
              | (Rejected handledError, st') =>
                  let p := with_service st' p in
                  if message_is handledError API_KEY_INVALID_OR_UNSELECTED
                     || message_is handledError API_KEY_RESELECTION_FAILED
                  then
                    with_ui (setError (Some (js "The API key is invalid or selection was cancelled. Please select a valid API key."))
                               (setApiKeyRequired true (ui p))) p
                  else if message_is handledError API_KEY_REQUIRED_NO_AISTUDIO
                  then
                    with_ui (setError (Some (js "An API key is required and cannot be automatically configured. Please select one."))
                               (setApiKeyRequired true (ui p))) p
                  else
                    with_ui (setError
                               (Some (js "Analysis failed: "
                                      ++ (match err_message handledError with
                                          | Some m =>
                                              if nonempty m then m
                                              else js "Unknown error"
                                          | None => js "Unknown error"
                                          end)
                                      ++ js ".")) (ui p)) p
              end in
            with_ui (setLoading false (ui p)) p
        end
      else
        with_ui (setError (Some (js "No image to analyze. Please take a photo or upload one.")) (ui p)) p
  | _, _ =>
      with_ui (setError (Some (js "No image to analyze. Please take a photo or upload one.")) (ui p)) p
  end.

(** ** Transitions *)

(** What can happen to a mounted page: a click on a rendered button, a
    file chosen in the picker, the effect running again, leaving. *)
Inductive Event : Type :=
| TakePhoto (imageData : jsstring)
| ChooseFile (file : option (jsstring * settled jsstring))
| Retake (cam : CamOutcome)
| SelectApiKey (h : Host)
| AnalyzeSkin (h : Host)
| EffectRerun (h : Host) (cam : CamOutcome)
| Leave.

Definition option_nat_eqb (a b : option StreamId) : bool :=
  match a, b with
  | Some x, Some y => Nat.eqb x y
  | None, None => true
  | _, _ => false
  end.

(** The event can happen: its button is rendered, or the dependency of the
    effect changed. *)
Definition enabled (ev : Event) (p : Page) : bool :=
  mounted p &&
  match ev with
  | TakePhoto _ => capture_ui_shown (ui p) && cameraEnabled (ui p)
  | ChooseFile _ => capture_ui_shown (ui p)
  | Retake _ => preview_shown (ui p)
  | SelectApiKey _ => key_prompt_shown (ui p)
  | AnalyzeSkin _ => preview_shown (ui p)
  | EffectRerun _ _ => negb (option_nat_eqb (stream (ui p)) (effect_stream p))
  | Leave => true
  end.

Definition handle (ev : Event) (p : Page) : Page :=
  match ev with
  | TakePhoto imageData => captureImage imageData p
  | ChooseFile file => handleFileChange file p
  | Retake cam => retakePhoto cam p
  | SelectApiKey h => handleSelectApiKey h p
  | AnalyzeSkin h => handleAnalyze h p
  | EffectRerun h cam => effect_rerun h cam p
  | Leave => unmount p
  end.

Definition step (p : Page) (ev : Event) : option Page :=
  if enabled ev p then Some (handle ev p) else None.

(** Running a list of events from a page; [None] if one cannot happen. *)
Fixpoint run_events (p : Page) (evs : list Event) : option Page :=
  match evs with
  | [] => Some p
  | ev :: evs' =>
      match step p ev with
      | Some p' => run_events p' evs'
      | None => None
      end
  end.

(** The states the page can be in. *)
Inductive reachable : Page -> Prop :=
| reachable_mount : forall h cam, reachable (mount h cam)
| reachable_step : forall p ev p',
    reachable p -> step p ev = Some p' -> reachable p'.

(** The page holds no stream, shows no video, its effect captured no
    stream, and no stream was ever stopped. *)
Definition holds_no_stream (p : Page) : Prop :=
  stream (ui p) = None /\ cameraEnabled (ui p) = false
  /\ effect_stream p = None /\ stops (camera p) = [].

(** The [CameraReady] state: the live video with its Take Photo button. *)
Definition CameraReady (p : Page) : bool :=
  capture_ui_shown (ui p) && cameraEnabled (ui p)
  && match stream (ui p) with Some _ => true | None => false end.

End ScanPage.

(* ================================================================== *)
(** * Sample responses                                                 *)
(* ================================================================== *)

Module Samples.

Import JS GeminiService.
Local Open Scope list_scope.

(** A response text with some of its parts left open: the [overallScore]
    member, the [skinType] value, the [acne] and [pores] members and the
    [explainability] value. Single quotes stand for double quotes. *)
Definition sample_text (overallScore skinType acne pores explainability : string)
  : jsstring :=
  jsq ("{" ++ overallScore ++ "'skinType':" ++ skinType
       ++ ",'fitzpatrickScale':'III','issues':{" ++ acne
       ++ "'wrinkles':{'score':12,'severity':'low'},"
       ++ "'hyperpigmentation':{'score':25,'severity':'low','areas':['cheeks']},"
       ++ pores
       ++ "'redness':{'score':18.5,'severity':'low'},"
       ++ "'texture':{'score':70,'severity':'low'},"
       ++ "'hydration':{'score':64,'severity':'medium'},"
       ++ "'oiliness':{'score':81,'severity':'high','areas':['T-zone']},"
       ++ "'darkCircles':{'score':30,'severity':'low'},"
       ++ "'symmetry':{'score':88,'description':'well balanced'}},"
       ++ "'recommendations':{'morningRoutine':['cleanser','SPF 50'],"
       ++ "'eveningRoutine':['retinol'],'weeklyTreatments':[],"
       ++ "'lifestyleTips':['sleep 8h']},'explainability':"
       ++ explainability ++ "}")%string.

Definition score_72 : string := "'overallScore':72,".
Definition acne_entry : string :=
  "'acne':{'score':40,'severity':'moderate','areas':['forehead','chin']},".
Definition pores_entry : string := "'pores':{'score':55,'severity':'medium'},".
Definition explanation : string := "'Oily T-zone with mild acne.'".

(** The fully valid sample of the specification. *)
Definition valid_text : jsstring :=
  sample_text score_72 "'oily'" acne_entry pores_entry explanation.



(** The sample without its [acne] entry. *)
Definition no_acne_text : jsstring :=
  sample_text score_72 "'oily'" "" pores_entry explanation.

(** The sample with a skin type outside the five values and no [acne]. *)
Definition greasy_no_acne_text : jsstring :=
  sample_text score_72 "'greasy'" "" pores_entry explanation.

(** The sample whose [acne] has a [score] only and whose [pores] entry is
    missing. *)
Definition bad_acne_no_pores_text : jsstring :=
  sample_text score_72 "'oily'" "'acne':{'score':40}," "" explanation.

(** The sample with an empty [explainability]. *)
Definition empty_explainability_text : jsstring :=
  sample_text score_72 "'oily'" acne_entry pores_entry "''".

(** The sample whose [acne.areas] is a number. *)
Definition areas_number_text : jsstring :=
  sample_text score_72 "'oily'"
    "'acne':{'score':40,'severity':'moderate','areas':7},"
    pores_entry explanation.

Definition valid_value : jsval :=
  Eval vm_compute in
    match JSON.parse valid_text with Some v => v | None => JUndefined end.

(** A host with an environment credential and no picker, whose remote model
    answers [text]. *)
Definition host_answering (text : jsstring) : Host :=
  {| process_env_API_KEY := Some (js "k3y");
     window_aistudio := None;
     generateContent := fun _ _ => Resolved text;
     SyntaxError_message := fun _ => js "Unexpected token" |}.

(** A host with neither credential nor picker. *)
Definition host_without_credential : Host :=
  {| process_env_API_KEY := None;
     window_aistudio := None;
     generateContent := fun _ _ => Resolved valid_text;
     SyntaxError_message := fun _ => js "Unexpected token" |}.

(** A host with an environment credential and no picker. *)
Definition host0 : Host := host_answering [].

Definition image_data : jsstring := js "aGk=".
Definition image_type : jsstring := js "image/jpeg".

Definition run (text : jsstring) : settled jsval * State :=
  analyzeSkinImage (host_answering text) image_data image_type initial_state.

(** What [JSON.parse] makes of a text ([undefined] if it does not parse). *)
Definition parsed (text : jsstring) : jsval :=
  match JSON.parse text with Some v => v | None => JUndefined end.

(** Mounting with a camera that grants a stream, choosing a PNG file,
    then asking for a retake with the camera granting again. *)
Definition upload_then_retake : list ScanPage.Event :=
  [ScanPage.ChooseFile (Some (js "image/png", Resolved (js "aGk=")));
   ScanPage.Retake ScanPage.CamGranted].

(** A host whose remote call fails with [e]. *)
Definition host_failing (e : JsError) : Host :=
  {| process_env_API_KEY := Some (js "k3y");
     window_aistudio := None;
     generateContent := fun _ _ => Rejected e;
     SyntaxError_message := fun _ => js "Unexpected token" |}.

End Samples.

(* ================================================================== *)
(** * services/geminiService.ts, the variant with a response schema    *)
(* ================================================================== *)

(** The file stored as [src/services/geminiService.ts]: the same credential
    functions, and an [analyzeSkinImage] that asks the model for JSON by a
    response schema and returns what [JSON.parse] makes of the trimmed
    text, without cleaning or validation. It reads [process.env.API_KEY]
    directly; the host's [None] stands for an undefined [API_KEY] here
    ([process] itself is taken to exist). *)
Module SchemaService.

Import JS GeminiService.
Local Open Scope list_scope.
Local Open Scope js_scope.

(** The [SyntaxError] that [JSON.parse] throws. *)
Definition SyntaxError (m : jsstring) : JsError :=
  {| err_name := js "SyntaxError"; err_message := Some m |}.

Definition msg_unhandled : jsstring :=
  js "Unhandled error in analyzeSkinImage".

(** [analyzeSkinImage] (lines 93-258 of this variant). *)
Definition analyzeSkinImage (h : Host) (base64Image mimeType : jsstring)
  : M jsval :=
  if negb (isProcessEnvApiKeySet h) then throw (Error msg_no_api_key)
  else
    try_catch
      (text <- call_generateContent h mimeType base64Image ;;
       let jsonStr := trim text in
       match JSON.parse jsonStr with
       | Some v => ret v
       | None => throw (SyntaxError (SyntaxError_message h jsonStr))
       end)
      (fun error => handleApiKeyError h error ;; throw (Error msg_unhandled)).

End SchemaService.

(* ================================================================== *)
(** * utils/imageUtils.ts                                              *)
(* ================================================================== *)

Module ImageUtils.

Import JS GeminiService.

(** How [FileReader.readAsDataURL] ends: [onload] with the data URL in
    [reader.result], or [onerror] with a progress event. *)
Inductive ReaderOutcome : Type :=
| Loaded (result : jsstring)
| Failed.

(** The event handed to [reader.onerror]: an object without [message]. *)
Definition progress_event : JsError :=
  {| err_name := js "ProgressEvent"; err_message := None |}.

(** [fileToBase64] (lines 8-19): what follows the first comma of the data
    URL ([undefined], which the caller's template prints as "undefined",
    when there is no comma); the error event is passed on as it is. *)
Definition fileToBase64 (reader : ReaderOutcome) : settled jsstring :=
  match reader with
  | Loaded result => Resolved (ScanPage.split_comma_1 result)
  | Failed => Rejected progress_event
  end.

(** The data URL of a file of MIME type [type] with base64 content
    [base64]. *)
Definition data_url (type base64 : jsstring) : jsstring :=
  (js "data:" ++ type ++ js ";base64," ++ base64)%list.

(** A string without comma. *)
Definition no_comma (s : jsstring) : bool :=
  forallb (fun c => negb (N.eqb c 44)) s.

End ImageUtils.

(* ================================================================== *)
(** * More hosts and events                                            *)
(* ================================================================== *)

Module MoreSamples.

Import JS GeminiService Samples.
Local Open Scope list_scope.

(** A picker that reports [selected] and whose dialog ends as [dialog]. *)
Definition picker (selected : bool) (dialog : settled unit) : AIStudio :=
  {| hasSelectedApiKey := Some (Resolved selected);
     openSelectKey := Some dialog |}.

(** A host with an environment credential and a picker, whose remote model
    answers as [answer]. *)
Definition host_with_picker (selected : bool) (dialog : settled unit)
  (answer : settled jsstring) : Host :=
  {| process_env_API_KEY := Some (js "k3y");
     window_aistudio := Some (picker selected dialog);
     generateContent := fun _ _ => answer;
     SyntaxError_message := fun _ => js "Unexpected token" |}.

(** The error of a remote call refused for its credential. *)
Definition entity_error : JsError :=
  Error (js "404 NOT_FOUND: Requested entity was not found.").

(** A cancelled dialog. *)
Definition cancelled : JsError := Error (js "User cancelled").

(** The sample with a recommendation that is not a list. *)
Definition bad_routine_text : jsstring := jsq
  "{'overallScore':72,'skinType':'oily','fitzpatrickScale':'III','issues':{'acne':{'score':40,'severity':'moderate'},'wrinkles':{'score':12,'severity':'low'},'hyperpigmentation':{'score':25,'severity':'low'},'pores':{'score':55,'severity':'medium'},'redness':{'score':18.5,'severity':'low'},'texture':{'score':70,'severity':'low'},'hydration':{'score':64,'severity':'medium'},'oiliness':{'score':81,'severity':'high'},'darkCircles':{'score':30,'severity':'low'},'symmetry':{'score':88,'description':'well balanced'}},'recommendations':{'morningRoutine':['cleanser'],'eveningRoutine':'retinol','weeklyTreatments':[],'lifestyleTips':[3]},'explainability':'ok'}".

(** A response that is no JSON and quotes the credential signal. *)
Definition apology_text : jsstring :=
  js "Sorry: Requested entity was not found. Please retry.".

(** A response that is no JSON. *)
Definition prose_text : jsstring := js "The skin looks healthy.".

(** The sample with a score far above a hundred. *)
Definition score_250_text : jsstring :=
  sample_text "'overallScore':250," "'oily'" acne_entry pores_entry explanation.

(** The sample whose [explainability] is a list. *)
Definition list_explainability_text : jsstring :=
  sample_text score_72 "'oily'" acne_entry pores_entry "['x']".

(** A remote call that fails for a reason other than the credential. *)
Definition network_error : JsError := TypeError (js "Failed to fetch").

End MoreSamples.

(* ================================================================== *)
(** * Notions about the recommendations                                *)
(* ================================================================== *)

Module Notions.

Import JS GeminiService.
Local Open Scope list_scope.

(** The entry of [key] in [recommendations] is not a list of strings. *)
Definition recommendation_malformed (recommendations : jsval)
  (key : jsstring) : bool :=
  match get recommendations key with
  | JArray items => negb (forallb is_string items)
  | _ => true
  end.

(** The first required key, in the order of the loop, whose entry is not
    a list of strings. *)
Definition first_malformed_recommendation (recommendations : jsval)
  : option jsstring :=
  find (recommendation_malformed recommendations) requiredRecommendationKeys.

End Notions.

(* ================================================================== *)
(** * pages/ResultsPage.tsx                                            *)
(* ================================================================== *)

(** What the results page computes from the analysis result before it
    renders: the issues it lists and the two descriptions. *)
Module ResultsPage.

Import JS GeminiService.
Local Open Scope N_scope.
Local Open Scope list_scope.

(** The test of the filter of lines 85-87:
    [value && typeof value.score === 'number']. *)
Definition issue_shown (value : jsval) : bool :=
  truthy value && jstype_eqb (typeof (get value (js "score"))) Tnumber.

(** [issues] (lines 85-87): the entries of [analysisResult.issues] that
    pass the test. The entries of an object are its fields, in the order
    of the text but for keys that read as array indices, which JavaScript
    puts first; what the page does with an [issues] that is no object is
    not modelled ([None]). *)
Definition issues (analysisResult : jsval)
  : option (list (jsstring * jsval)) :=
  match get analysisResult (js "issues") with
  | JObject fields => Some (filter (fun kv => issue_shown (snd kv)) fields)
  | _ => None
  end.

(** [s.toLowerCase()] for a string of ASCII characters. *)
Definition toLowerCase (s : jsstring) : jsstring :=
  map (fun c => if (65 <=? c) && (c <=? 90) then c + 32 else c) s.

Definition skin_type_undetermined : jsstring :=
  js "Skin type could not be determined.".

(** [getSkinTypeDescription] (lines 31-44). *)
Definition getSkinTypeDescription (type : jsstring) : jsstring :=
  let t := toLowerCase type in
  if str_eqb t (js "oily") then
    js "Characterized by excess sebum production, leading to a shiny complexion and proneness to breakouts."
  else if str_eqb t (js "dry") then
    js "Lacks moisture, often feels tight, can appear flaky or dull."
  else if str_eqb t (js "combination") then
    js "Oily in the T-zone (forehead, nose, chin) and dry or normal on the cheeks and other areas."
  else if str_eqb t (js "normal") then
    js "Well-balanced, clear, not too oily or too dry with minimal imperfections."
  else skin_type_undetermined.

Definition fitzpatrick_undetermined : jsstring :=
  js "Fitzpatrick scale could not be determined.".

(** [getFitzpatrickDescription] (lines 47-64). *)
Definition getFitzpatrickDescription (scale : jsstring) : jsstring :=
  if str_eqb scale (js "I") then
    js "Very fair skin, always burns, never tans."
  else if str_eqb scale (js "II") then
    js "Fair skin, usually burns, sometimes tans."
  else if str_eqb scale (js "III") then
    js "Medium skin, sometimes burns, usually tans."
  else if str_eqb scale (js "IV") then
    js "Olive skin, rarely burns, always tans."
  else if str_eqb scale (js "V") then
    js "Dark brown skin, very rarely burns, tans easily."
  else if str_eqb scale (js "VI") then
    js "Deeply pigmented dark brown/black skin, never burns, tans easily."
  else fitzpatrick_undetermined.

End ResultsPage.

(* ================================================================== *)
(** * Facts about the string built-ins                                 *)
(* ================================================================== *)

Module JSFacts.

Import JS.
Local Open Scope list_scope.

Lemma str_eqb_refl (a : jsstring) : str_eqb a a = true.
Proof.
  induction a as [|x a IH]; simpl; [reflexivity|].
  now rewrite N.eqb_refl, IH.
Qed.

Lemma str_eqb_eq (a b : jsstring) : str_eqb a b = true <-> a = b.
Proof.
  split.
  - revert b. induction a as [|x a IH]; intros [|y b]; simpl; try easy.
    intros H. apply andb_true_iff in H as [Hx Hr].
    apply N.eqb_eq in Hx. apply IH in Hr. now subst.
  - intros ->. apply str_eqb_refl.
Qed.

Lemma all_ws_app (w1 w2 : jsstring) :
  all_ws (w1 ++ w2) = all_ws w1 && all_ws w2.
Proof. apply forallb_app. Qed.

Lemma trimStart_ws_app (w s : jsstring) :
  all_ws w = true -> trimStart (w ++ s) = trimStart s.
Proof.
  induction w as [|c w IH]; simpl; [reflexivity|].
  intros H. apply andb_true_iff in H as [Hc Hw]. rewrite Hc. now apply IH.
Qed.

Lemma trimStart_ws (w : jsstring) : all_ws w = true -> trimStart w = [].
Proof.
  intros H. rewrite <- (app_nil_r w). now rewrite trimStart_ws_app.
Qed.

(** Once [trimStart] has found a character to keep, what follows is kept. *)
Lemma trimStart_app_keep (s x : jsstring) :
  trimStart s <> [] -> trimStart (s ++ x) = trimStart s ++ x.
Proof.
  induction s as [|c s IH]; simpl; [congruence|].
  destruct (isWhiteSpace c); [exact IH | reflexivity].
Qed.

Lemma all_ws_rev (w : jsstring) : all_ws w = true -> all_ws (rev w) = true.
Proof.
  unfold all_ws. rewrite !forallb_forall. intros H c Hc.
  apply H. now apply in_rev.
Qed.

Lemma trimEnd_app_ws (s w : jsstring) :
  all_ws w = true -> trimEnd (s ++ w) = trimEnd s.
Proof.
  intros H. unfold trimEnd. rewrite rev_app_distr.
  now rewrite trimStart_ws_app by (apply all_ws_rev; exact H).
Qed.

Lemma trimEnd_last (s : jsstring) (c : N) :
  isWhiteSpace c = false -> trimEnd (s ++ [c]) = s ++ [c].
Proof.
  intros H. unfold trimEnd. rewrite rev_app_distr. simpl.
  rewrite H. simpl. now rewrite rev_involutive.
Qed.

(** Trimming removes white space around a text that starts and ends with
    other characters, and nothing else. *)
Lemma trim_core (w1 w2 mid : jsstring) (a b : N) :
  all_ws w1 = true -> all_ws w2 = true ->
  isWhiteSpace a = false -> isWhiteSpace b = false ->
  trim (w1 ++ (a :: mid ++ [b]) ++ w2) = a :: mid ++ [b].
Proof.
  intros H1 H2 Ha Hb. unfold trim.
  rewrite trimStart_ws_app by exact H1. simpl. rewrite Ha.
  change (a :: (mid ++ [b]) ++ w2) with ((a :: mid ++ [b]) ++ w2).
  rewrite trimEnd_app_ws by exact H2.
  change (a :: mid ++ [b]) with ((a :: mid) ++ [b]).
  now apply trimEnd_last.
Qed.

Lemma trim_solid (mid : jsstring) (a b : N) :
  isWhiteSpace a = false -> isWhiteSpace b = false ->
  trim (a :: mid ++ [b]) = a :: mid ++ [b].
Proof.
  intros Ha Hb.
  rewrite <- (@trim_core [] [] mid a b eq_refl eq_refl Ha Hb) at 2.
  simpl. now rewrite app_nil_r.
Qed.

(** White space around a text does not change what trimming leaves. *)
Lemma trim_ws_around (w1 w2 t : jsstring) :
  all_ws w1 = true -> all_ws w2 = true -> trim (w1 ++ t ++ w2) = trim t.
Proof.
  intros H1 H2. unfold trim. rewrite trimStart_ws_app by exact H1.
  destruct (trimStart t) as [|c r] eqn:E.
  - assert (Ht : trimStart (t ++ w2) = []).
    { clear H1. induction t as [|x t IH]; simpl in *.
      - now apply trimStart_ws.
      - destruct (isWhiteSpace x); [now apply IH | discriminate]. }
    now rewrite Ht.
  - rewrite trimStart_app_keep by (rewrite E; discriminate).
    rewrite E. now apply trimEnd_app_ws.
Qed.

Lemma startsWith_app (p r : jsstring) : startsWith p (p ++ r) = true.
Proof.
  induction p as [|x p IH]; simpl; [reflexivity|].
  now rewrite N.eqb_refl.
Qed.

Lemma startsWith_head_neq (x y : N) (p s : jsstring) :
  x <> y -> startsWith (x :: p) (y :: s) = false.
Proof. intros H. simpl. apply N.eqb_neq in H. now rewrite H. Qed.

Lemma endsWith_app (p r : jsstring) : endsWith p (r ++ p) = true.
Proof. unfold endsWith. rewrite rev_app_distr. apply startsWith_app. Qed.

Lemma endsWith_last_neq (x y : N) (p s : jsstring) :
  x <> y -> endsWith (p ++ [x]) (s ++ [y]) = false.
Proof.
  intros H. unfold endsWith. rewrite !rev_app_distr. simpl.
  apply N.eqb_neq in H. now rewrite H.
Qed.

Lemma substring_from_app (p r : jsstring) :
  substring_from (List.length p) (p ++ r) = r.
Proof.
  unfold substring_from. rewrite skipn_app, skipn_all, Nat.sub_diag.
  reflexivity.
Qed.

Lemma substring_to_app (r p : jsstring) :
  substring_to (List.length (r ++ p) - List.length p) (r ++ p) = r.
Proof.
  unfold substring_to. rewrite length_app, Nat.add_sub.
  rewrite firstn_app, Nat.sub_diag, firstn_all. simpl.
  apply app_nil_r.
Qed.

Lemma includes_app (p a b : jsstring) : includes p (a ++ p ++ b) = true.
Proof.
  induction a as [|x a IH]; simpl.
  - assert (E : forall s, includes p s = true \/ startsWith p s = false).
    { intros s. destruct s; simpl; destruct (startsWith p _); auto. }
    destruct (E (p ++ b)) as [H | H]; [exact H|].
    now rewrite startsWith_app in H.
  - rewrite IH. apply orb_true_r.
Qed.

End JSFacts.

(* ================================================================== *)
(** * Facts about [JSON.parse]                                         *)
(* ================================================================== *)

Module JSONFacts.

Import JS JSON JSFacts.
Local Open Scope list_scope.
Local Open Scope N_scope.

Lemma rest_of_refl (s : jsstring) : rest_of s s.
Proof. now exists []. Qed.

Lemma rest_of_trans (a b c : jsstring) :
  rest_of a b -> rest_of b c -> rest_of a c.
Proof.
  intros [p ->] [q ->]. exists (q ++ p). now rewrite app_assoc.
Qed.

Lemma rest_of_cons (x : N) (r s : jsstring) :
  rest_of r s -> rest_of r (x :: s).
Proof. intros [p ->]. now exists (x :: p). Qed.

Lemma rest_of_tail (x : N) (r : jsstring) : rest_of r (x :: r).
Proof. now exists [x]. Qed.

Lemma rest_of_skipn (n : nat) (s : jsstring) : rest_of (skipn n s) s.
Proof. exists (firstn n s). symmetry. apply firstn_skipn. Qed.

Lemma json_ws_is_white_space (c : N) :
  is_json_ws c = true -> isWhiteSpace c = true.
Proof.
  unfold is_json_ws. rewrite !orb_true_iff, !N.eqb_eq.
  intros [[[-> | ->] | ->] | ->]; reflexivity.
Qed.

Lemma skip_ws_split (s : jsstring) :
  exists w, all_ws w = true /\ s = w ++ skip_ws s.
Proof.
  induction s as [|c s (w & Hw & E)]; simpl.
  - now exists [].
  - destruct (is_json_ws c) eqn:Hc.
    + exists (c :: w). split; [|simpl; now f_equal].
      simpl. now rewrite (json_ws_is_white_space _ Hc).
    + now exists [].
Qed.

Lemma skip_ws_rest (s : jsstring) : rest_of (skip_ws s) s.
Proof. destruct (skip_ws_split s) as (w & _ & E). now exists w. Qed.

Lemma skip_ws_head (s r : jsstring) (c : N) :
  skip_ws s = c :: r -> is_json_ws c = false.
Proof.
  induction s as [|x s IH]; simpl; [discriminate|].
  destruct (is_json_ws x) eqn:Hx; [exact IH|].
  intros E. injection E as -> _. exact Hx.
Qed.

Lemma parse_string_chars_rest (s acc str r : jsstring) :
  parse_string_chars s acc = Some (str, r) -> rest_of r s.
Proof.
  remember (List.length s) as n eqn:Hn.
  assert (Hle : (List.length s <= n)%nat) by lia. clear Hn.
  revert s acc Hle. induction n as [|n IH]; intros s acc Hle.
  - destruct s; [discriminate | simpl in Hle; lia].
  - destruct s as [|c s]; [discriminate|]. simpl in Hle. simpl.
    destruct (c =? 34).
    { intros E. injection E as _ <-. apply rest_of_tail. }
    destruct (c =? 92).
    + destruct s as [|e s]; [discriminate|]. simpl in Hle.
      destruct (e =? 117).
      * destruct s as [|h1 [|h2 [|h3 [|h4 s]]]]; try discriminate.
        simpl in Hle. destruct (hex4 h1 h2 h3 h4); [|discriminate].
        intros E. apply IH in E; [|lia].
        now repeat apply rest_of_cons.
      * destruct (unescape e); [|discriminate].
        intros E. apply IH in E; [|lia]. now repeat apply rest_of_cons.
    + destruct (c <? 32); [discriminate|].
      intros E. apply IH in E; [|lia]. now apply rest_of_cons.
Qed.

Lemma span_digits_rest (s : jsstring) : rest_of (snd (span_digits s)) s.
Proof.
  induction s as [|c s IH]; simpl; [apply rest_of_refl|].
  destruct (is_digit c); [|apply rest_of_refl].
  destruct (span_digits s) as [ds r]. simpl in *. now apply rest_of_cons.
Qed.

Lemma parse_sign_rest (s : jsstring) : rest_of (snd (parse_sign s)) s.
Proof.
  destruct s as [|c s]; simpl; [apply rest_of_refl|].
  destruct (c =? 45); simpl; [apply rest_of_tail | apply rest_of_refl].
Qed.

Lemma parse_int_rest (s r : jsstring) (ds : list N) :
  parse_int s = Some (ds, r) -> rest_of r s.
Proof.
  destruct s as [|c s]; simpl; [discriminate|].
  destruct (c =? 48).
  { intros E. injection E as _ <-. apply rest_of_tail. }
  destruct (is_digit c) eqn:Hd; [|discriminate].
  intros E. pose proof (span_digits_rest (c :: s)) as H.
  simpl in H. rewrite Hd in H.
  destruct (span_digits s) as [ds' r']. simpl in H.
  injection E as _ <-. exact H.
Qed.

Lemma parse_frac_rest (s r : jsstring) (ds : list N) :
  parse_frac s = Some (ds, r) -> rest_of r s.
Proof.
  destruct s as [|c s]; simpl.
  { intros E. injection E as _ <-. apply rest_of_refl. }
  destruct (c =? 46).
  - pose proof (span_digits_rest s) as H.
    destruct (span_digits s) as [[|d ds'] r']; [discriminate|].
    intros E. injection E as _ <-. now apply rest_of_cons.
  - intros E. injection E as _ <-. apply rest_of_refl.
Qed.

Lemma parse_exp_sign_rest (s : jsstring) : rest_of (snd (parse_exp_sign s)) s.
Proof.
  destruct s as [|c s]; simpl; [apply rest_of_refl|].
  destruct (c =? 45); simpl; [apply rest_of_tail|].
  destruct (c =? 43); simpl; [apply rest_of_tail | apply rest_of_refl].
Qed.

Lemma parse_exp_rest (s r : jsstring) (e : Z) :
  parse_exp s = Some (e, r) -> rest_of r s.
Proof.
  destruct s as [|c s]; simpl.
  { intros E. injection E as _ <-. apply rest_of_refl. }
  destruct ((c =? 101) || (c =? 69)).
  - pose proof (parse_exp_sign_rest s) as H1.
    destruct (parse_exp_sign s) as [eneg r1]. simpl in H1.
    pose proof (span_digits_rest r1) as H2.
    destruct (span_digits r1) as [[|d ds'] r']; [discriminate|].
    intros E. injection E as _ <-. simpl in H2.
    apply rest_of_cons. now apply rest_of_trans with r1.
  - intros E. injection E as _ <-. apply rest_of_refl.
Qed.

Lemma parse_number_rest (s r : jsstring) (v : jsval) :
  parse_number s = Some (v, r) ->
  rest_of r s /\ exists n, v = JNumber n.
Proof.
  unfold parse_number.
  pose proof (parse_sign_rest s) as H0.
  destruct (parse_sign s) as [neg s1]. simpl in H0.
  destruct (parse_int s1) as [[ids s2]|] eqn:E1; [|discriminate].
  destruct (parse_frac s2) as [[fds s3]|] eqn:E2; [|discriminate].
  destruct (parse_exp s3) as [[e s4]|] eqn:E3; [|discriminate].
  intros E. injection E as <- <-.
  apply parse_int_rest in E1. apply parse_frac_rest in E2.
  apply parse_exp_rest in E3. split; [|eauto].
  eauto using rest_of_trans.
Qed.

Lemma rest_of_mid (pre r : jsstring) (x : N) : rest_of r (pre ++ x :: r).
Proof. exists (pre ++ [x]). now rewrite <- app_assoc. Qed.

(** What each parser leaves is a suffix of what it was given; an object
    was read from an opening to a closing brace. *)
Lemma parse_rest (fuel : nat) :
  (forall s v r, parse_value fuel s = Some (v, r) ->
     rest_of r s
     /\ (forall o, v = JObject o ->
          exists body, skip_ws s = 123 :: body ++ 125 :: r))
  /\ (forall s acc v r, parse_elements fuel s acc = Some (v, r) ->
      rest_of r s /\ exists items, v = JArray items)
  /\ (forall s acc v r, parse_members fuel s acc = Some (v, r) ->
      exists pre, s = pre ++ 125 :: r).
Proof.
  induction fuel as [|f (IHv & IHe & IHm)].
  { repeat split; intros; discriminate. }
  split; [|split].
  - (* parse_value *)
    intros s v r. cbn [parse_value].
    pose proof (skip_ws_rest s) as Hs.
    destruct (skip_ws s) as [|c t] eqn:Es; [discriminate|].
    destruct (c =? 123) eqn:Ec.
    { apply N.eqb_eq in Ec. subst c.
      destruct (skip_ws_split t) as (w & _ & Et).
      destruct (skip_ws t) as [|c' t'] eqn:Et'; [discriminate|].
      destruct (c' =? 125) eqn:Ec'.
      - apply N.eqb_eq in Ec'. subst c'.
        intros E. injection E as <- <-.
        assert (Hb : exists body, 123 :: t = 123 :: body ++ 125 :: t').
        { exists w. now rewrite Et at 1. }
        split; [|intros _ _; exact Hb].
        destruct Hb as (body & Hb). rewrite Hb in Hs.
        apply rest_of_trans with (2 := Hs).
        apply rest_of_cons, rest_of_mid.
      - intros E. apply IHm in E as (pre & ->).
        assert (Hb : exists body,
                   123 :: pre ++ 125 :: r = 123 :: body ++ 125 :: r)
          by now exists pre.
        split; [|intros _ _; exact Hb].
        apply rest_of_trans with (2 := Hs).
        apply rest_of_cons, rest_of_mid. }
    destruct (c =? 91).
    { pose proof (skip_ws_rest t) as Ht.
      destruct (skip_ws t) as [|c' t'] eqn:Et'; [discriminate|].
      destruct (c' =? 93).
      - intros E. injection E as <- <-. split; [|discriminate].
        apply rest_of_trans with (2 := Hs).
        apply rest_of_cons. apply rest_of_trans with (2 := Ht).
        apply rest_of_tail.
      - intros E. apply IHe in E as (Hr & items & ->).
        split; [|discriminate].
        apply rest_of_trans with (2 := Hs). now apply rest_of_cons. }
    destruct (c =? 34).
    { destruct (parse_string_chars t []) as [[str r']|] eqn:Estr;
        [|discriminate].
      intros E. injection E as <- <-. split; [|discriminate].
      apply parse_string_chars_rest in Estr.
      apply rest_of_trans with (2 := Hs). now apply rest_of_cons. }
    destruct (startsWith (js "true") (c :: t)).
    { intros E. injection E as <- <-. split; [|discriminate].
      apply rest_of_trans with (2 := Hs). apply (rest_of_skipn 4 (c :: t)). }
    destruct (startsWith (js "false") (c :: t)).
    { intros E. injection E as <- <-. split; [|discriminate].
      apply rest_of_trans with (2 := Hs). apply (rest_of_skipn 5 (c :: t)). }
    destruct (startsWith (js "null") (c :: t)).
    { intros E. injection E as <- <-. split; [|discriminate].
      apply rest_of_trans with (2 := Hs). apply (rest_of_skipn 4 (c :: t)). }
    intros E. apply parse_number_rest in E as (Hr & n & ->).
    split; [|discriminate]. now apply rest_of_trans with (2 := Hs).
  - (* parse_elements *)
    intros s acc v r. cbn [parse_elements].
    destruct (parse_value f s) as [[v1 r1]|] eqn:E1; [|discriminate].
    apply IHv in E1 as (H1 & _).
    pose proof (skip_ws_rest r1) as H2.
    destruct (skip_ws r1) as [|c r2]; [discriminate|].
    destruct (c =? 44).
    + intros E. apply IHe in E as (H3 & items & ->). split; [|eauto].
      apply rest_of_trans with (2 := H1).
      apply rest_of_trans with (2 := H2). now apply rest_of_cons.
    + destruct (c =? 93); [|discriminate].
      intros E. injection E as <- <-. split; [|eauto].
      apply rest_of_trans with (2 := H1).
      apply rest_of_trans with (2 := H2). apply rest_of_tail.
  - (* parse_members *)
    intros s acc v r. cbn [parse_members].
    pose proof (skip_ws_rest s) as H0.
    destruct (skip_ws s) as [|c t]; [discriminate|].
    destruct (c =? 34); [|discriminate].
    destruct (parse_string_chars t []) as [[k r1]|] eqn:Ek; [|discriminate].
    apply parse_string_chars_rest in Ek.
    pose proof (skip_ws_rest r1) as H1.
    destruct (skip_ws r1) as [|c1 r2]; [discriminate|].
    destruct (c1 =? 58); [|discriminate].
    destruct (parse_value f r2) as [[v1 r3]|] eqn:Ev; [|discriminate].
    apply IHv in Ev as (H2 & _).
    pose proof (skip_ws_rest r3) as H3.
    destruct (skip_ws r3) as [|c3 r4]; [discriminate|].
    assert (Hr4 : rest_of (c3 :: r4) s).
    { apply rest_of_trans with (2 := H0). apply rest_of_cons.
      apply rest_of_trans with (2 := Ek).
      apply rest_of_trans with (2 := H1). apply rest_of_cons.
      now apply rest_of_trans with (2 := H2). }
    destruct (c3 =? 44).
    + intros E. apply IHm in E as (pre & ->).
      destruct Hr4 as (q & ->). exists (q ++ c3 :: pre).
      now rewrite <- app_assoc.
    + destruct (c3 =? 125) eqn:E3; [|discriminate].
      apply N.eqb_eq in E3. subst c3.
      intros E. injection E as _ <-. exact Hr4.
Qed.

(** A text that parses to an object is, white space aside, a pair of
    braces around something. *)
Lemma parse_object_braces (t : jsstring) (o : list (jsstring * jsval)) :
  parse t = Some (JObject o) ->
  exists w1 body w2,
    all_ws w1 = true /\ all_ws w2 = true
    /\ t = w1 ++ (123 :: body ++ [125]) ++ w2.
Proof.
  unfold parse.
  destruct (parse_value _ t) as [[v r]|] eqn:E; [|discriminate].
  destruct (skip_ws_split r) as (w2 & Hw2 & Er).
  destruct (skip_ws r); [|discriminate].
  intros Hv. injection Hv as ->.
  apply parse_rest in E as (_ & Hb).
  destruct (Hb o eq_refl) as (body & Hbody).
  destruct (skip_ws_split t) as (w1 & Hw1 & Et).
  exists w1, body, w2. repeat split; try assumption.
  rewrite Et at 1. rewrite Hbody. rewrite app_nil_r in Er. subst r.
  simpl. f_equal. f_equal. now rewrite <- app_assoc.
Qed.

(** ** The fuel *)

Lemma rest_of_length (r s : jsstring) :
  rest_of r s -> (List.length r <= List.length s)%nat.
Proof. intros [pre ->]. rewrite length_app. lia. Qed.

Lemma skip_ws_length (s : jsstring) :
  (List.length (skip_ws s) <= List.length s)%nat.
Proof. apply rest_of_length, skip_ws_rest. Qed.

Lemma parse_string_chars_shorter (s acc str r : jsstring) :
  parse_string_chars s acc = Some (str, r) ->
  (List.length r < List.length s)%nat.
Proof.
  remember (List.length s) as n eqn:Hn.
  assert (Hle : (List.length s <= n)%nat) by lia.
  rewrite Hn. clear Hn.
  revert s acc Hle. induction n as [|n IH]; intros s acc Hle.
  - destruct s; [discriminate | simpl in Hle; lia].
  - destruct s as [|c s]; [discriminate|]. simpl in Hle. simpl.
    destruct (c =? 34).
    { intros E. injection E as _ <-. lia. }
    destruct (c =? 92).
    + destruct s as [|e s]; [discriminate|]. simpl in Hle.
      destruct (e =? 117).
      * destruct s as [|h1 [|h2 [|h3 [|h4 s]]]]; try discriminate.
        simpl in Hle. destruct (hex4 h1 h2 h3 h4); [|discriminate].
        intros E. apply IH in E; [|lia]. simpl. lia.
      * destruct (unescape e); [|discriminate].
        intros E. apply IH in E; [|lia]. simpl. lia.
    + destruct (c <? 32); [discriminate|].
      intros E. apply IH in E; [|lia]. lia.
Qed.

Lemma parse_int_shorter (s r : jsstring) (ds : list N) :
  parse_int s = Some (ds, r) -> (List.length r < List.length s)%nat.
Proof.
  destruct s as [|c s]; simpl; [discriminate|].
  destruct (c =? 48).
  { intros E. injection E as _ <-. lia. }
  destruct (is_digit c) eqn:Hd; [|discriminate].
  pose proof (span_digits_rest s) as H.
  destruct (span_digits s) as [ds' r']. simpl in H.
  intros E. injection E as _ <-. apply rest_of_length in H. lia.
Qed.

Lemma parse_number_shorter (s r : jsstring) (v : jsval) :
  parse_number s = Some (v, r) -> (List.length r < List.length s)%nat.
Proof.
  unfold parse_number.
  pose proof (parse_sign_rest s) as H0.
  destruct (parse_sign s) as [neg s1]. simpl in H0.
  destruct (parse_int s1) as [[ids s2]|] eqn:E1; [|discriminate].
  destruct (parse_frac s2) as [[fds s3]|] eqn:E2; [|discriminate].
  destruct (parse_exp s3) as [[e s4]|] eqn:E3; [|discriminate].
  intros E. injection E as _ <-.
  apply parse_int_shorter in E1. apply parse_frac_rest in E2.
  apply parse_exp_rest in E3.
  apply rest_of_length in H0, E2, E3. lia.
Qed.

Lemma skip_ws_cons_length (s t : jsstring) (c : N) :
  skip_ws s = c :: t -> (List.length t < List.length s)%nat.
Proof.
  intros E. pose proof (skip_ws_length s) as H. rewrite E in H.
  simpl in H. lia.
Qed.

(** Every parser consumes something. *)
Lemma parse_shorter (fuel : nat) :
  (forall s v r, parse_value fuel s = Some (v, r) ->
     (List.length r < List.length s)%nat)
  /\ (forall s acc v r, parse_elements fuel s acc = Some (v, r) ->
      (List.length r + 2 <= List.length s)%nat)
  /\ (forall s acc v r, parse_members fuel s acc = Some (v, r) ->
      (List.length r + 2 <= List.length s)%nat).
Proof.
  induction fuel as [|f (IHv & IHe & IHm)].
  { repeat split; intros; discriminate. }
  split; [|split].
  - intros s v r. cbn [parse_value].
    destruct (skip_ws s) as [|c t] eqn:Es; [discriminate|].
    apply skip_ws_cons_length in Es.
    destruct (c =? 123).
    { destruct (skip_ws t) as [|c' t'] eqn:Et; [discriminate|].
      apply skip_ws_cons_length in Et.
      destruct (c' =? 125).
      - intros E. injection E as _ <-. lia.
      - intros E. apply IHm in E. lia. }
    destruct (c =? 91).
    { destruct (skip_ws t) as [|c' t'] eqn:Et; [discriminate|].
      apply skip_ws_cons_length in Et.
      destruct (c' =? 93).
      - intros E. injection E as _ <-. lia.
      - intros E. apply IHe in E. lia. }
    destruct (c =? 34).
    { destruct (parse_string_chars t []) as [[str r']|] eqn:Estr;
        [|discriminate].
      intros E. injection E as _ <-.
      apply parse_string_chars_shorter in Estr. lia. }
    destruct (startsWith (js "true") (c :: t)).
    { intros E. injection E as _ <-.
      pose proof (length_skipn 4 (c :: t)) as L.
      change (skipn 4 (c :: t)) with (skipn 3 t) in *.
      simpl List.length in L. lia. }
    destruct (startsWith (js "false") (c :: t)).
    { intros E. injection E as _ <-.
      pose proof (length_skipn 5 (c :: t)) as L.
      change (skipn 5 (c :: t)) with (skipn 4 t) in *.
      simpl List.length in L. lia. }
    destruct (startsWith (js "null") (c :: t)).
    { intros E. injection E as _ <-.
      pose proof (length_skipn 4 (c :: t)) as L.
      change (skipn 4 (c :: t)) with (skipn 3 t) in *.
      simpl List.length in L. lia. }
    intros E. apply parse_number_shorter in E. simpl in E. lia.
  - intros s acc v r. cbn [parse_elements].
    destruct (parse_value f s) as [[v1 r1]|] eqn:E1; [|discriminate].
    apply IHv in E1.
    destruct (skip_ws r1) as [|c r2] eqn:E2; [discriminate|].
    apply skip_ws_cons_length in E2.
    destruct (c =? 44).
    + intros E. apply IHe in E. lia.
    + destruct (c =? 93); [|discriminate].
      intros E. injection E as _ <-. lia.
  - intros s acc v r. cbn [parse_members].
    destruct (skip_ws s) as [|c t] eqn:E0; [discriminate|].
    apply skip_ws_cons_length in E0.
    destruct (c =? 34); [|discriminate].
    destruct (parse_string_chars t []) as [[k r1]|] eqn:Ek; [|discriminate].
    apply parse_string_chars_shorter in Ek.
    destruct (skip_ws r1) as [|c1 r2] eqn:E1; [discriminate|].
    apply skip_ws_cons_length in E1.
    destruct (c1 =? 58); [|discriminate].
    destruct (parse_value f r2) as [[v1 r3]|] eqn:Ev; [|discriminate].
    apply IHv in Ev.
    destruct (skip_ws r3) as [|c3 r4] eqn:E3; [discriminate|].
    apply skip_ws_cons_length in E3.
    destruct (c3 =? 44).
    + intros E. apply IHm in E. lia.
    + destruct (c3 =? 125); [|discriminate].
      intros E. injection E as _ <-. lia.
Qed.

(** A parse that succeeds with some fuel succeeds with any fuel that is at
    least twice the number of characters read. *)
Lemma parse_fuel (fuel : nat) :
  (forall s v r, parse_value fuel s = Some (v, r) ->
     forall g, (2 * (List.length s - List.length r) <= g + 1)%nat ->
               parse_value g s = Some (v, r))
  /\ (forall s acc v r, parse_elements fuel s acc = Some (v, r) ->
      forall g, (2 * (List.length s - List.length r) <= g + 2)%nat ->
                parse_elements g s acc = Some (v, r))
  /\ (forall s acc v r, parse_members fuel s acc = Some (v, r) ->
      forall g, (2 * (List.length s - List.length r) <= g + 2)%nat ->
                parse_members g s acc = Some (v, r)).
Proof.
  induction fuel as [|f (IHv & IHe & IHm)].
  { repeat split; intros; discriminate. }
  destruct (parse_shorter f) as (Sv & Se & Sm).
  destruct (parse_shorter (S f)) as (Sv' & Se' & Sm').
  split; [|split].
  - intros s v r E g Hg. pose proof (Sv' _ _ _ E) as Hlt.
    destruct g as [|g]; [lia|]. cbn [parse_value] in E |- *.
    destruct (skip_ws s) as [|c t] eqn:Es; [discriminate|].
    apply skip_ws_cons_length in Es.
    destruct (c =? 123).
    { destruct (skip_ws t) as [|c' t'] eqn:Et; [discriminate|].
      destruct (c' =? 125); [exact E|].
      pose proof (Sm _ _ _ _ E). apply (IHm _ _ _ _ E). lia. }
    destruct (c =? 91).
    { destruct (skip_ws t) as [|c' t'] eqn:Et; [discriminate|].
      destruct (c' =? 93); [exact E|].
      pose proof (Se _ _ _ _ E). apply (IHe _ _ _ _ E). lia. }
    exact E.
  - intros s acc v r E g Hg. pose proof (Se' _ _ _ _ E) as Hlt.
    destruct g as [|g]; [lia|]. cbn [parse_elements] in E |- *.
    destruct (parse_value f s) as [[v1 r1]|] eqn:E1; [|discriminate].
    pose proof (Sv _ _ _ E1) as L1.
    destruct (skip_ws r1) as [|c r2] eqn:E2; [discriminate|].
    pose proof (skip_ws_cons_length _ E2) as L2.
    assert (Lr : (List.length r <= List.length r2)%nat).
    { destruct (c =? 44).
      - pose proof (Se _ _ _ _ E). lia.
      - destruct (c =? 93); [|discriminate]. injection E as _ <-. lia. }
    rewrite (IHv _ _ _ E1 g) by lia. rewrite E2.
    destruct (c =? 44); [|exact E].
    pose proof (Se _ _ _ _ E). apply (IHe _ _ _ _ E). lia.
  - intros s acc v r E g Hg. pose proof (Sm' _ _ _ _ E) as Hlt.
    destruct g as [|g]; [lia|]. cbn [parse_members] in E |- *.
    destruct (skip_ws s) as [|c t] eqn:E0; [discriminate|].
    apply skip_ws_cons_length in E0.
    destruct (c =? 34); [|discriminate].
    destruct (parse_string_chars t []) as [[k r1]|] eqn:Ek; [|discriminate].
    apply parse_string_chars_shorter in Ek.
    destruct (skip_ws r1) as [|c1 r2] eqn:E1; [discriminate|].
    apply skip_ws_cons_length in E1.
    destruct (c1 =? 58); [|discriminate].
    destruct (parse_value f r2) as [[v1 r3]|] eqn:Ev; [|discriminate].
    pose proof (Sv _ _ _ Ev) as L3.
    destruct (skip_ws r3) as [|c3 r4] eqn:E3; [discriminate|].
    pose proof (skip_ws_cons_length _ E3) as L4.
    assert (Lr : (List.length r <= List.length r4)%nat).
    { destruct (c3 =? 44).
      - pose proof (Sm _ _ _ _ E). lia.
      - destruct (c3 =? 125); [|discriminate]. injection E as _ <-. lia. }
    rewrite (IHv _ _ _ Ev g) by lia. rewrite E3.
    destruct (c3 =? 44); [|exact E].
    pose proof (Sm _ _ _ _ E). apply (IHm _ _ _ _ E). lia.
Qed.

(** The fuel of [parse] is enough: a text that parses with some fuel
    parses. *)
Lemma parse_fuel_enough (fuel : nat) (s r : jsstring) (v : jsval) :
  parse_value fuel s = Some (v, r) -> skip_ws r = [] -> parse s = Some v.
Proof.
  intros E Hr. unfold parse.
  rewrite (proj1 (parse_fuel fuel) _ _ _ E (2 * List.length s + 2)%nat) by lia.
  now rewrite Hr.
Qed.

End JSONFacts.

(* ================================================================== *)
(** * Facts about the service                                          *)
(* ================================================================== *)

Module ServiceFacts.

Import JS GeminiService JSFacts.
Local Open Scope list_scope.

Lemma for_of_rejected {A} (l : list A) (body : A -> settled unit) (e : JsError) :
  for_of l body = Rejected e -> exists x, In x l /\ body x = Rejected e.
Proof.
  induction l as [|x l IH]; simpl; [discriminate|].
  destruct (body x) as [[]|e'] eqn:E; simpl.
  - intros H. destruct (IH H) as (y & Hy & Ey). eauto.
  - intros H. injection H as ->. eauto.
Qed.

Lemma for_of_resolved {A} (l : list A) (body : A -> settled unit) :
  (forall x, In x l -> body x = Resolved tt) -> for_of l body = Resolved tt.
Proof.
  induction l as [|x l IH]; simpl; [reflexivity|].
  intros H. rewrite (H x) by now left. simpl. apply IH.
  intros y Hy. apply H. now right.
Qed.

Lemma for_of_resolved_inv {A} (l : list A) (body : A -> settled unit) (x : A) :
  for_of l body = Resolved tt -> In x l -> body x = Resolved tt.
Proof.
  induction l as [|y l IH]; simpl; [easy|].
  destruct (body y) as [[]|e] eqn:E; simpl; [|discriminate].
  intros H [-> | Hx]; [exact E | now apply IH].
Qed.

(** The loop stops at the first element whose body throws. *)
Lemma for_of_first {A} (before after : list A) (x : A)
      (body : A -> settled unit) (e : JsError) :
  (forall y, In y before -> body y = Resolved tt) ->
  body x = Rejected e ->
  for_of (before ++ x :: after) body = Rejected e.
Proof.
  induction before as [|y before IH]; simpl; intros Hb Hx.
  - now rewrite Hx.
  - rewrite (Hb y) by now left. simpl. apply IH; [|exact Hx].
    intros z Hz. apply Hb. now right.
Qed.

Lemma check_issue_rejected (issues : jsval) (key : jsstring) (e : JsError) :
  check_issue issues key = Rejected e ->
  e = Error (msg_issue_score key) \/ e = Error msg_symmetry_description
  \/ e = Error (msg_issue_severity key).
Proof.
  unfold check_issue.
  destruct (_ || _); [intros H; injection H as <-; auto|].
  destruct (str_eqb key _).
  - destruct (negb _); [intros H; injection H as <-; auto | discriminate].
  - destruct (negb _); [intros H; injection H as <-; auto | discriminate].
Qed.

Lemma check_recommendation_rejected (recs : jsval) (key : jsstring) (e : JsError) :
  check_recommendation recs key = Rejected e ->
  e = Error (msg_recommendation key).
Proof.
  unfold check_recommendation.
  destruct (_ || _); [intros H; now injection H as <- | discriminate].
Qed.

(** A failed validation raises one of the listed errors. *)
Lemma validate_rejected_in (v : jsval) (e : JsError) :
  validate v = Rejected e -> In e validation_errors.
Proof.
  unfold validate, validate_top_level, validation_errors.
  destruct (top_level_malformed v).
  { cbn [and_then]. intros H. injection H as <-. now left. }
  cbn [and_then].
  destruct (for_of requiredIssueKeys _) as [[]|e1] eqn:E1.
  - cbn [and_then].
    destruct (for_of requiredRecommendationKeys _) as [[]|e2] eqn:E2;
      cbn [and_then]; [discriminate|].
    intros H. injection H as <-.
    apply for_of_rejected in E2 as (key & Hkey & Ek).
    apply check_recommendation_rejected in Ek. subst e2.
    right. right. apply in_or_app. right. apply in_or_app. right.
    apply in_map_iff. eauto.
  - cbn [and_then]. intros H. injection H as <-.
    apply for_of_rejected in E1 as (key & Hkey & Ek).
    apply check_issue_rejected in Ek as [-> | [-> | ->]].
    + right. right. apply in_or_app. left. apply in_map_iff. eauto.
    + right. now left.
    + right. right. apply in_or_app. right. apply in_or_app. left.
      apply in_map_iff. eauto.
Qed.

Lemma validation_errors_not_signal (e : JsError) :
  In e validation_errors -> matches_signal e = false.
Proof.
  intros H.
  assert (A : forallb (fun e => negb (matches_signal e)) validation_errors
              = true) by (vm_compute; reflexivity).
  rewrite forallb_forall in A. apply A in H.
  now apply negb_true_iff in H.
Qed.

(** An error without the signal goes through the recovery untouched. *)
Lemma handleApiKeyError_rethrows (h : Host) (e : JsError) (st : State) :
  matches_signal e = false -> handleApiKeyError h e st = (Rejected e, st).
Proof. intros H. unfold handleApiKeyError. now rewrite H. Qed.

Lemma validate_resolved (v r : jsval) : validate v = Resolved r -> r = v.
Proof.
  unfold validate.
  destruct (validate_top_level v) as [[]|]; cbn [and_then]; [|discriminate].
  destruct (for_of requiredIssueKeys _) as [[]|]; cbn [and_then];
    [|discriminate].
  destruct (for_of requiredRecommendationKeys _) as [[]|]; cbn [and_then];
    [|discriminate].
  intros H. now injection H as <-.
Qed.

(** Once the response has been parsed, the call returns what the
    validation returns, after one remote call and with the flag as it was:
    a validation error carries no credential signal. *)
Lemma analyzeSkinImage_validates (h : Host) (img mime : jsstring)
      (st : State) (v : jsval) :
  parsedResult h img mime = Some v ->
  analyzeSkinImage h img mime st = (validate v, after_call st).
Proof.
  unfold parsedResult, analyzeSkinImage.
  destruct (isProcessEnvApiKeySet h); [|discriminate]. cbn [negb].
  unfold try_catch, bind, call_generateContent, await, handle_response.
  destruct (generateContent h mime img) as [text|]; [|discriminate].
  destruct (clean_response text) as [jsonStr|]; [|discriminate].
  intros Hp. cbn [and_then]. unfold parse_json. rewrite Hp. cbn [and_then].
  fold (after_call st).
  destruct (validate v) as [r|e] eqn:Ev; [reflexivity|].
  apply validate_rejected_in, validation_errors_not_signal in Ev.
  now rewrite (handleApiKeyError_rethrows h e _ Ev).
Qed.

End ServiceFacts.

(* ================================================================== *)
(** * Fences                                                           *)
(* ================================================================== *)

Module FenceFacts.

Import JS GeminiService JSFacts JSONFacts.
Local Open Scope list_scope.

(** An object text between white space is cleaned to the object text. *)
Lemma clean_object_text (j1 j2 body : jsstring) :
  all_ws j1 = true -> all_ws j2 = true ->
  clean_response (j1 ++ (123%N :: body ++ [125%N]) ++ j2)
  = Resolved (123%N :: body ++ [125%N]).
Proof.
  intros H1 H2. unfold clean_response.
  rewrite trim_core by (assumption || reflexivity).
  cbn [nonempty negb]. unfold strip_fences.
  assert (S1 : startsWith fence_json (123%N :: body ++ [125%N]) = false)
    by reflexivity.
  assert (S2 : endsWith fence (123%N :: body ++ [125%N]) = false).
  { change (123%N :: body ++ [125%N]) with ((123%N :: body) ++ [125%N]).
    change fence with ([96%N; 96%N] ++ [96%N]).
    apply endsWith_last_neq. discriminate. }
  rewrite S1, S2, trim_solid by reflexivity.
  reflexivity.
Qed.

(** The same text inside a [json] fence is cleaned to the same. *)
Lemma clean_fenced_object_text (w0 w1 w2 w3 j1 j2 body : jsstring) :
  all_ws w0 = true -> all_ws w1 = true -> all_ws w2 = true ->
  all_ws w3 = true -> all_ws j1 = true -> all_ws j2 = true ->
  clean_response
    (fenced_json w0 w1 (j1 ++ (123%N :: body ++ [125%N]) ++ j2) w2 w3)
  = Resolved (123%N :: body ++ [125%N]).
Proof.
  intros H0 H1 H2 H3 J1 J2. unfold clean_response.
  set (t := j1 ++ (123%N :: body ++ [125%N]) ++ j2).
  assert (E : fenced_json w0 w1 t w2 w3
              = w0 ++ (96%N :: (skipn 1 fence_json ++ w1 ++ t ++ w2
                                ++ [96%N; 96%N]) ++ [96%N]) ++ w3).
  { unfold fenced_json, fence_json, fence. cbn [js skipn N_of_ascii].
    simpl. repeat rewrite <- app_assoc. reflexivity. }
  rewrite E, trim_core by (assumption || reflexivity).
  cbn [nonempty negb]. unfold strip_fences.
  assert (E2 : 96%N :: (skipn 1 fence_json ++ w1 ++ t ++ w2 ++ [96%N; 96%N])
                 ++ [96%N]
               = fence_json ++ (w1 ++ t ++ w2) ++ fence).
  { unfold fence_json, fence. simpl. repeat rewrite <- app_assoc.
    reflexivity. }
  rewrite E2, startsWith_app, substring_from_app, endsWith_app,
    substring_to_app, trim_ws_around by assumption.
  subst t. rewrite trim_core by (assumption || reflexivity).
  reflexivity.
Qed.

Lemma handleApiKeyError_with_response (h : Host) (text : jsstring)
      (e : JsError) (st : State) :
  handleApiKeyError (with_response h text) e st = handleApiKeyError h e st.
Proof. reflexivity. Qed.

(** With the remote model answering [text], the call is the response
    handling of [text] after one remote call. *)
Lemma analyzeSkinImage_with_response (h : Host) (text img mime : jsstring)
      (st : State) :
  isProcessEnvApiKeySet h = true ->
  analyzeSkinImage (with_response h text) img mime st
  = match handle_response h text with
    | Resolved v => (Resolved v, after_call st)
    | Rejected e =>
        match handleApiKeyError h e (after_call st) with
        | (Resolved _, st') => (Rejected e, st')
        | (Rejected e', st') => (Rejected e', st')
        end
    end.
Proof.
  intros Hk. unfold analyzeSkinImage.
  change (isProcessEnvApiKeySet (with_response h text))
    with (isProcessEnvApiKeySet h).
  rewrite Hk. cbn [negb].
  unfold try_catch, bind, call_generateContent, await, throw.
  cbn [generateContent with_response]. fold (after_call st).
  change (handle_response (with_response h text) text)
    with (handle_response h text).
  destruct (handle_response h text) as [v|e]; [reflexivity|].
  rewrite handleApiKeyError_with_response.
  destruct (handleApiKeyError h e (after_call st)) as [[[]|e'] st'];
    reflexivity.
Qed.

End FenceFacts.

(* ================================================================== *)
(** * Facts about the validation                                       *)
(* ================================================================== *)

Module ValidationFacts.

Import JS GeminiService JSFacts ServiceFacts.
Local Open Scope list_scope.

(** The loop body accepts an entry exactly when it is well formed. *)
Lemma check_issue_resolved_iff (issues : jsval) (key : jsstring) :
  check_issue issues key = Resolved tt <-> issue_malformed issues key = false.
Proof.
  unfold check_issue, issue_malformed.
  destruct (get issues key) as [| |b|n|s|items|fields] eqn:E;
    cbn [truthy negb orb get typeof jstype_eqb];
    try (split; discriminate).
  - destruct b; cbn; split; discriminate.
  - destruct (rounds_to_zero n); cbn; split; discriminate.
  - destruct (nonempty s); cbn; split; discriminate.
  - destruct (jstype_eqb (typeof (lookup (js "score") fields)) Tnumber);
      cbn [negb orb]; [|split; discriminate].
    destruct (str_eqb key (js "symmetry")).
    + destruct (jstype_eqb _ Tstring); cbn [negb]; split;
        (reflexivity || discriminate).
    + destruct (jstype_eqb _ Tstring); cbn [negb]; split;
        (reflexivity || discriminate).
Qed.

Lemma check_issue_rejected_iff (issues : jsval) (key : jsstring) :
  (exists e, check_issue issues key = Rejected e)
  <-> issue_malformed issues key = true.
Proof.
  split.
  - intros [e He]. destruct (issue_malformed issues key) eqn:M; [reflexivity|].
    apply check_issue_resolved_iff in M. rewrite M in He. discriminate He.
  - intros M. destruct (check_issue issues key) as [[]|e] eqn:C; [|eauto].
    apply check_issue_resolved_iff in C. rewrite C in M. discriminate M.
Qed.

(** [find] returns the first element that satisfies the test. *)
Lemma find_first {A} (p : A -> bool) (l : list A) (x : A) :
  find p l = Some x ->
  exists before after,
    l = before ++ x :: after /\ p x = true
    /\ forall y, In y before -> p y = false.
Proof.
  induction l as [|y l IH]; simpl; [discriminate|].
  destruct (p y) eqn:Ey.
  - intros H. injection H as ->. exists [], l. repeat split; [exact Ey|].
    intros z [].
  - intros H. destruct (IH H) as (before & after & -> & Hx & Hb).
    exists (y :: before), after. repeat split; [exact Hx|].
    intros z [-> | Hz]; [exact Ey | now apply Hb].
Qed.

(** The errors of the loop over the issues, for a required key, are of
    kind [InvalidIssue] for that key and mention it. *)
Lemma issue_errors_name_key (key : jsstring) (e : JsError) :
  In key requiredIssueKeys ->
  e = Error (msg_issue_score key)
  \/ (str_eqb key (js "symmetry") = true /\ e = Error msg_symmetry_description)
  \/ e = Error (msg_issue_severity key) ->
  error_kind e = Some (InvalidIssue key) /\ names_key key e = true.
Proof.
  intros Hk He.
  repeat (destruct Hk as [<- | Hk];
          [destruct He as [-> | [[Hs ->] | ->]];
           try (vm_compute in Hs; discriminate Hs);
           split; vm_compute; reflexivity|]).
  destruct Hk.
Qed.

Lemma check_issue_rejected_named (issues : jsval) (key : jsstring) (e : JsError) :
  In key requiredIssueKeys ->
  check_issue issues key = Rejected e ->
  error_kind e = Some (InvalidIssue key) /\ names_key key e = true.
Proof.
  intros Hk Hc. apply issue_errors_name_key; [exact Hk|].
  unfold check_issue in Hc.
  destruct (_ || _); [injection Hc as <-; auto|].
  destruct (str_eqb key (js "symmetry")) eqn:Es.
  - destruct (negb _); [injection Hc as <-; auto | discriminate].
  - destruct (negb _); [injection Hc as <-; auto | discriminate].
Qed.

(** ** Assignments to own properties *)

Lemma lookup_set_field_same (k : jsstring) (v : jsval)
      (fields : list (jsstring * jsval)) :
  lookup k (set_field k v fields) = v.
Proof.
  induction fields as [|[k' v'] fields IH]; simpl.
  - now rewrite str_eqb_refl.
  - destruct (str_eqb k' k) eqn:E; simpl; rewrite E; [reflexivity | exact IH].
Qed.

Lemma lookup_set_field_other (k1 k2 : jsstring) (v : jsval)
      (fields : list (jsstring * jsval)) :
  str_eqb k2 k1 = false ->
  lookup k1 (set_field k2 v fields) = lookup k1 fields.
Proof.
  intros Hne. induction fields as [|[k' v'] fields IH]; simpl.
  - now rewrite Hne.
  - destruct (str_eqb k' k2) eqn:E2; simpl.
    + apply str_eqb_eq in E2. subst k'. now rewrite Hne.
    + now rewrite IH.
Qed.

Lemma str_eqb_sym (a b : jsstring) : str_eqb a b = str_eqb b a.
Proof.
  revert b. induction a as [|x a IH]; intros [|y b]; simpl; try reflexivity.
  now rewrite N.eqb_sym, IH.
Qed.

(** ** The top-level check and the issue entries *)






(** What the top-level check leaves to be true of a response. *)
Lemma top_level_ok_inv (v : jsval) :
  top_level_malformed v = false ->
  exists fields,
    v = JObject fields
    /\ jstype_eqb (typeof (lookup (js "overallScore") fields)) Tnumber = true
    /\ Array_includes skinTypes (lookup (js "skinType") fields) = true
    /\ Array_includes fitzpatrickScales (lookup (js "fitzpatrickScale") fields)
       = true
    /\ is_null (lookup (js "recommendations") fields) = false
    /\ jstype_eqb (typeof (lookup (js "recommendations") fields)) Tobject = true
    /\ truthy (lookup (js "explainability") fields) = true.
Proof.
  unfold top_level_malformed. rewrite !orb_false_iff, !negb_false_iff.
  intros ((((((((_ & Hs) & Hk) & Hf) & _) & _) & Hr) & Hrn) & He).
  destruct v as [| |b|n|s|items|fields]; try discriminate Hs.
  exists fields. cbn [get] in *. repeat split; assumption.
Qed.

Lemma get_object (fields : list (jsstring * jsval)) (k : jsstring) :
  get (JObject fields) k = lookup k fields.
Proof. reflexivity. Qed.

(** The loop body looks at the entry of its key only. *)
Lemma check_issue_ext (i1 i2 : jsval) (key : jsstring) :
  get i1 key = get i2 key -> check_issue i1 key = check_issue i2 key.
Proof. intros H. unfold check_issue. now rewrite H. Qed.

Lemma severity_key_is_required (key : jsstring) :
  In key severityIssueKeys ->
  In key requiredIssueKeys /\ str_eqb key (js "symmetry") = false.
Proof.
  intros H.
  repeat (destruct H as [<- | H];
          [split; [unfold requiredIssueKeys; simpl; tauto | reflexivity]|]).
  destruct H.
Qed.

(** An accepted entry is an object. *)
Lemma well_formed_entry_is_object (issues : jsval) (key : jsstring) :
  issue_malformed issues key = false ->
  exists ifs efs, issues = JObject ifs /\ lookup key ifs = JObject efs.
Proof.
  unfold issue_malformed. rewrite !orb_false_iff, !negb_false_iff.
  intros ((_ & Hs) & _).
  destruct issues as [| |b|n|s|items|ifs]; try discriminate Hs.
  cbn [get] in Hs.
  destruct (lookup key ifs) as [| |b|n|s|items|efs] eqn:E;
    try discriminate Hs.
  now exists ifs, efs.
Qed.

(** The loop body does not read [areas]. *)
Lemma check_issue_areas (ifs efs : list (jsstring * jsval))
      (key : jsstring) (areas : jsval) :
  str_eqb key (js "symmetry") = false ->
  lookup key ifs = JObject efs ->
  check_issue
    (JObject (set_field key (JObject (set_field (js "areas") areas efs)) ifs))
    key
  = check_issue (JObject ifs) key.
Proof.
  intros Hsym He. unfold check_issue.
  rewrite !get_object, lookup_set_field_same, He, Hsym, !get_object.
  rewrite !lookup_set_field_other by reflexivity.
  reflexivity.
Qed.

(** Replacing [areas] in the entry of one of the nine keys of a valid
    response leaves it valid. *)
Lemma with_areas_valid (v : jsval) (key : jsstring) (areas : jsval) :
  In key severityIssueKeys ->
  validate v = Resolved v ->
  validate (with_areas v key areas) = Resolved (with_areas v key areas).
Proof.
  intros Hkey Hv. apply severity_key_is_required in Hkey as (Hreq & Hsym).
  unfold validate, validate_top_level in Hv.
  destruct (top_level_malformed v) eqn:Ht; [discriminate Hv|].
  cbn [and_then] in Hv.
  destruct (for_of requiredIssueKeys _) as [[]|] eqn:Hi; [|discriminate Hv].
  cbn [and_then] in Hv.
  destruct (for_of requiredRecommendationKeys _) as [[]|] eqn:Hr;
    [|discriminate Hv].
  clear Hv.
  pose proof Ht as Ht'. unfold top_level_malformed in Ht'.
  apply top_level_ok_inv in Ht
    as (fields & -> & Hs & Hk & Hf & Hrn & Hrt & He).
  rewrite get_object in Hi, Hr.
  pose proof (for_of_resolved_inv _ _ key Hi Hreq) as Hck.
  apply check_issue_resolved_iff in Hck.
  destruct (well_formed_entry_is_object _ _ Hck) as (ifs & efs & Eifs & Eefs).
  unfold with_areas. cbn [get]. rewrite Eifs. cbn [get set]. rewrite Eefs.
  cbn [set].
  set (entry' := JObject (set_field (js "areas") areas efs)).
  set (issues' := JObject (set_field key entry' ifs)).
  unfold validate, validate_top_level, top_level_malformed. cbn [get].
  rewrite lookup_set_field_same.
  rewrite !lookup_set_field_other by reflexivity.
  rewrite Hs, Hk, Hf, Hrn, Hrt, He. cbn [truthy negb orb typeof jstype_eqb
    is_null issues' and_then].
  rewrite Hr. 
  assert (Hi' : for_of requiredIssueKeys (check_issue issues') = Resolved tt).
  { apply for_of_resolved. intros k Hk'.
    pose proof (for_of_resolved_inv _ _ k Hi Hk') as Hold.
    rewrite Eifs in Hold.
    destruct (str_eqb key k) eqn:Ekk.
    - apply str_eqb_eq in Ekk. subst k. rewrite <- Hold.
      now apply check_issue_areas.
    - rewrite <- Hold. apply check_issue_ext. unfold issues'. cbn [get].
      now apply lookup_set_field_other. }
  rewrite Hi'. reflexivity.
Qed.



End ValidationFacts.

(* ================================================================== *)
(** * The camera stream of the scan page                               *)
(* ================================================================== *)

Module ScanPageFacts.

Import JS GeminiService ScanPage.

(** While [init] runs the page shows its loader, so there is no [<video>]
    element to attach a granted stream to. *)
Lemma init_holds_no_stream (h : Host) (cam : CamOutcome) (p : Page) :
  holds_no_stream p -> holds_no_stream (init h cam p).
Proof.
  destruct p as [c st camr eff m nav]. destruct c.
  unfold holds_no_stream. simpl. intros (-> & -> & -> & Hs).
  unfold init. simpl.
  destruct (checkAndPromptApiKey h st) as [[[]|keyError] st'].
  - destruct cam as [|name message]; simpl.
    + repeat split; assumption.
    + destruct (_ || _); [|destruct (str_eqb name _)]; simpl;
        repeat split; assumption.
  - destruct (_ || _); simpl; repeat split; assumption.
Qed.

Lemma cleanup_holds_no_stream (p : Page) :
  holds_no_stream p -> cleanup p = p.
Proof.
  intros (_ & _ & He & _). unfold cleanup. now rewrite He.
Qed.

Lemma release_stream_none (p : Page) :
  stream (ui p) = None -> release_stream p = p.
Proof. intros H. unfold release_stream. now rewrite H. Qed.

Lemma handle_holds_no_stream (ev : Event) (p : Page) :
  holds_no_stream p -> holds_no_stream (handle ev p).
Proof.
  intros Hp. destruct ev as [imageData|file|cam|h|h|h cam|]; simpl.
  - (* captureImage *)
    destruct p as [c st camr eff m nav]. destruct c.
    unfold holds_no_stream in *. simpl in *.
    destruct Hp as (-> & -> & -> & Hs).
    unfold captureImage, video_mounted. simpl.
    rewrite !andb_false_r. simpl. repeat split; assumption.
  - (* handleFileChange *)
    destruct p as [c st camr eff m nav]. destruct c.
    unfold holds_no_stream in *. simpl in *.
    destruct Hp as (-> & -> & -> & Hs).
    unfold handleFileChange. simpl.
    destruct file as [[file_type [base64|fileError]]|]; simpl;
      repeat split; assumption.
  - (* retakePhoto *)
    destruct p as [c st camr eff m nav]. destruct c.
    unfold holds_no_stream in *. simpl in *.
    destruct Hp as (-> & -> & -> & Hs).
    unfold retakePhoto, video_mounted, capture_ui_shown. simpl.
    destruct cam as [|name message]; simpl;
      rewrite ?andb_false_r; simpl; repeat split; assumption.
  - (* handleSelectApiKey *)
    destruct p as [c st camr eff m nav]. destruct c.
    unfold holds_no_stream in *. simpl in *.
    destruct Hp as (-> & -> & -> & Hs).
    unfold handleSelectApiKey. simpl.
    destruct (GeminiService.call_openSelectKey h st) as [[[]|keyError] st'];
      simpl; repeat split; assumption.
  - (* handleAnalyze *)
    destruct p as [c st camr eff m nav]. destruct c.
    unfold holds_no_stream in *. simpl in *.
    destruct Hp as (-> & -> & -> & Hs).
    unfold handleAnalyze. simpl.
    destruct capturedImage0 as [image|]; [|simpl; repeat split; assumption].
    destruct imageMimeType0 as [mime|]; [|simpl; repeat split; assumption].
    destruct (_ && _); [|simpl; repeat split; assumption].
    destruct (analyzeSkinImage h _ mime st) as [[result|err] st1]; simpl.
    + repeat split; assumption.
    + destruct (handleApiKeyError h err st1) as [[[]|handled] st2]; simpl.
      * repeat split; assumption.
      * destruct (_ || _); [|destruct (message_is handled _)]; simpl;
          repeat split; assumption.
  - (* the effect again *)
    unfold effect_rerun. rewrite (cleanup_holds_no_stream Hp).
    apply init_holds_no_stream.
    destruct Hp as (H1 & H2 & H3 & H4). repeat split; assumption.
  - (* unmount *)
    unfold unmount. rewrite (cleanup_holds_no_stream Hp).
    destruct Hp as (H1 & H2 & H3 & H4). repeat split; assumption.
Qed.

(** No reachable page holds a stream: the only places that store one are
    guarded by [videoRef.current], which is set only once [cameraEnabled]
    is, which is set only next to a stored stream. *)
Lemma reachable_holds_no_stream (p : Page) :
  reachable p -> holds_no_stream p.
Proof.
  induction 1 as [h cam | p ev p' _ IH Hstep].
  - apply init_holds_no_stream. repeat split.
  - unfold step in Hstep. destruct (enabled ev p); [|discriminate].
    injection Hstep as <-. now apply handle_holds_no_stream.
Qed.

(** So every stream the camera ever granted is still live, and the page
    is never in [CameraReady]. *)
Lemma reachable_leaks_every_stream (p : Page) :
  reachable p ->
  active_streams (camera p) = seq 0 (acquired (camera p))
  /\ CameraReady p = false.
Proof.
  intros H. apply reachable_holds_no_stream in H as (Hs & Hc & _ & Hst).
  split.
  - unfold active_streams. rewrite Hst. simpl.
    induction (seq 0 (acquired (camera p))) as [|x l IH]; simpl; congruence.
  - unfold CameraReady. rewrite Hc. apply andb_false_r || (now rewrite andb_false_r).
Qed.

End ScanPageFacts.

(* ================================================================== *)
(** * Properties of the analysis pipeline and of the scan page         *)
(* ================================================================== *)

Import JS GeminiService ScanPage Samples.
Import JSFacts JSONFacts ServiceFacts FenceFacts ValidationFacts ScanPageFacts.
Local Open Scope list_scope.

(** ** C1: markdown fences *)

(** The part of C1 the code keeps: for every text [t] that parses as a
    JSON object, [analyzeSkinImage] on [t] wrapped in a fence whose opening
    marker is annotated [json] (white space allowed around the fence and
    between the markers and [t]) returns what it returns on [t] alone: the
    pipeline trims, removes one leading [```json] and one trailing [```],
    and trims again before parsing. *)
Theorem fenced_json_response_same_result
        (h : Host) (img mime : jsstring) (st : State)
        (t w0 w1 w2 w3 : jsstring) (o : list (jsstring * jsval)) :
  JSON.parse t = Some (JObject o) ->
  all_ws w0 = true -> all_ws w1 = true ->
  all_ws w2 = true -> all_ws w3 = true ->
  analyzeSkinImage (with_response h (fenced_json w0 w1 t w2 w3)) img mime st
  = analyzeSkinImage (with_response h t) img mime st.
Proof.
  intros Hp H0 H1 H2 H3.
  destruct (parse_object_braces _ Hp) as (j1 & body & j2 & J1 & J2 & ->).
  destruct (isProcessEnvApiKeySet h) eqn:Hk.
  - rewrite !analyzeSkinImage_with_response by exact Hk.
    unfold handle_response.
    rewrite clean_fenced_object_text, clean_object_text by assumption.
    reflexivity.
  - unfold analyzeSkinImage.
    change (isProcessEnvApiKeySet (with_response h (fenced_json w0 w1
              (j1 ++ (123%N :: body ++ [125%N]) ++ j2) w2 w3)))
      with (isProcessEnvApiKeySet h).
    change (isProcessEnvApiKeySet (with_response h
              (j1 ++ (123%N :: body ++ [125%N]) ++ j2)))
      with (isProcessEnvApiKeySet h).
    rewrite Hk. reflexivity.
Qed.

Lemma fenced_json_response_same_result_witness :
  JSON.parse valid_text = Some valid_value
  /\ analyzeSkinImage
       (with_response host0
          (fenced_json [32%N] [10%N] valid_text [10%N] [10%N; 32%N]))
       image_data image_type initial_state
     = analyzeSkinImage (with_response host0 valid_text)
         image_data image_type initial_state.
Proof.
  split; [vm_compute; reflexivity|].
  eapply (@fenced_json_response_same_result host0 image_data image_type
            initial_state valid_text [32%N] [10%N] [10%N] [10%N; 32%N]);
    vm_compute; reflexivity.
Defined.

(** C1, where the code departs from it: an opening marker without
    annotation is not removed, although the closing one is. The sample
    object alone is returned; the same object between a bare opening
    marker and a closing marker fails as [MalformedJSON]. *)
Lemma bare_fence_is_not_stripped :
  JSON.parse valid_text = Some valid_value
  /\ (exists o, valid_value = JObject o)
  /\ fst (analyzeSkinImage (with_response host0 valid_text)
            image_data image_type initial_state)
     = Resolved valid_value
  /\ exists e,
       fst (analyzeSkinImage
              (with_response host0
                 (fenced_bare [] [10%N] valid_text [10%N] []))
              image_data image_type initial_state)
       = Rejected e
       /\ error_kind e = Some MalformedJSON.
Proof.
  split; [vm_compute; reflexivity|].
  split; [eexists; vm_compute; reflexivity|].
  split; [vm_compute; reflexivity|].
  eexists. split; vm_compute; reflexivity.
Qed.

(** ** C2: the kinds of the top-level failures *)




(** ** C3: the issue entries *)

(** C3, amended: when the entry of one of the ten issue keys is missing,
    or its [score] is not a number, or its [description] (symmetry) or
    [severity] (the nine others) is not a string, [analyzeSkinImage] fails
    and no result reaches the caller; when moreover the response passes the
    top-level check and the key is the first such key in the order of the
    loop, the failure has kind [InvalidIssue] and its message names that
    key. *)
Theorem malformed_issue_is_rejected
        (h : Host) (img mime : jsstring) (st : State) (v : jsval)
        (key : jsstring) :
  parsedResult h img mime = Some v ->
  In key requiredIssueKeys ->
  issue_malformed (get v (js "issues")) key = true ->
  (exists e, analyzeSkinImage h img mime st = (Rejected e, after_call st))
  /\ (top_level_malformed v = false ->
      first_malformed_issue (get v (js "issues")) = Some key ->
      exists e,
        analyzeSkinImage h img mime st = (Rejected e, after_call st)
        /\ error_kind e = Some (InvalidIssue key)
        /\ names_key key e = true).
Proof.
  intros Hp Hk Hbad.
  rewrite (analyzeSkinImage_validates h img mime st Hp).
  split.
  - destruct (validate v) as [r|e] eqn:Ev; [exfalso | eauto].
    unfold validate in Ev.
    destruct (validate_top_level v) as [[]|]; cbn [and_then] in Ev;
      [|discriminate Ev].
    destruct (for_of requiredIssueKeys _) as [[]|] eqn:Ei;
      cbn [and_then] in Ev; [|discriminate Ev].
    apply for_of_resolved_inv with (x := key) in Ei; [|exact Hk].
    apply check_issue_resolved_iff in Ei. congruence.
  - intros Ht Hf. unfold first_malformed_issue in Hf.
    apply find_first in Hf as (before & after & El & _ & Hb).
    apply check_issue_rejected_iff in Hbad as (e & He).
    exists e.
    destruct (check_issue_rejected_named _ Hk He) as (Hkind & Hname).
    split; [|now split].
    unfold validate, validate_top_level. rewrite Ht. cbn [and_then].
    rewrite El.
    rewrite (for_of_first before after key _ (e := e)); [reflexivity| |exact He].
    intros y Hy. apply check_issue_resolved_iff. now apply Hb.
Qed.

Lemma malformed_issue_is_rejected_witness :
  get (get (parsed no_acne_text) (js "issues")) (js "acne") = JUndefined
  /\ exists e,
       analyzeSkinImage (host_answering no_acne_text) image_data image_type
         initial_state
       = (Rejected e, after_call initial_state)
       /\ error_kind e = Some (InvalidIssue (js "acne"))
       /\ names_key (js "acne") e = true.
Proof.
  split; [vm_compute; reflexivity|].
  apply (@malformed_issue_is_rejected (host_answering no_acne_text)
           image_data image_type initial_state (parsed no_acne_text)
           (js "acne"));
    try (vm_compute; reflexivity).
  left. reflexivity.
Defined.

(** C3 as stated fails twice over. A response without its [acne] entry
    and with a [skinType] outside the enum fails with [InvalidTopLevel],
    and its message does not name "acne". A response whose [acne] entry
    lacks [severity] and whose [pores] entry is missing fails naming
    "acne", not "pores". *)
Lemma malformed_issue_is_not_always_named :
  (issue_malformed (get (parsed greasy_no_acne_text) (js "issues")) (js "acne")
   = true
   /\ exists e, fst (run greasy_no_acne_text) = Rejected e
                /\ error_kind e = Some InvalidTopLevel
                /\ names_key (js "acne") e = false)
  /\ (issue_malformed (get (parsed bad_acne_no_pores_text) (js "issues"))
        (js "pores") = true
      /\ top_level_malformed (parsed bad_acne_no_pores_text) = false
      /\ exists e, fst (run bad_acne_no_pores_text) = Rejected e
                   /\ error_kind e = Some (InvalidIssue (js "acne"))
                   /\ names_key (js "pores") e = false).
Proof.
  split.
  - split; [vm_compute; reflexivity|].
    eexists. split; [vm_compute; reflexivity|].
    split; vm_compute; reflexivity.
  - split; [vm_compute; reflexivity|]. split; [vm_compute; reflexivity|].
    eexists. split; [vm_compute; reflexivity|].
    split; vm_compute; reflexivity.
Qed.

(** ** C4: empty responses *)

(** The part of C4 the code keeps: a response that is empty after
    trimming, before or after the pipeline has stripped a leading
    [```json] and a trailing [```] (white space only, or only such markers
    and white space), fails with kind [EmptyResponse], not with a parse
    failure. *)
Theorem empty_after_cleaning_is_EmptyResponse
        (h : Host) (img mime : jsstring) (st : State) (text : jsstring) :
  isProcessEnvApiKeySet h = true ->
  generateContent h mime img = Resolved text ->
  trim text = [] \/ strip_fences (trim text) = [] ->
  exists e,
    analyzeSkinImage h img mime st = (Rejected e, after_call st)
    /\ error_kind e = Some EmptyResponse
    /\ error_kind e <> Some MalformedJSON.
Proof.
  intros Hk Hg Hempty.
  assert (Hc : clean_response text = Rejected (Error msg_empty)
               \/ clean_response text = Rejected (Error msg_only_fences)).
  { unfold clean_response. destruct (trim text) as [|c r] eqn:Et.
    - now left.
    - right. destruct Hempty as [H | H]; [discriminate H|].
      cbn [nonempty negb]. now rewrite H. }
  assert (Hrun : forall e,
             clean_response text = Rejected e -> matches_signal e = false ->
             analyzeSkinImage h img mime st = (Rejected e, after_call st)).
  { intros e He Hs. unfold analyzeSkinImage. rewrite Hk. cbn [negb].
    unfold try_catch, bind, call_generateContent, await, handle_response.
    rewrite Hg, He. cbn [and_then]. fold (after_call st).
    now rewrite (handleApiKeyError_rethrows h e _ Hs). }
  destruct Hc as [Hc | Hc].
  - exists (Error msg_empty). split; [now apply Hrun|].
    split; [reflexivity | discriminate].
  - exists (Error msg_only_fences). split; [now apply Hrun|].
    split; [reflexivity | discriminate].
Qed.

Lemma empty_after_cleaning_is_EmptyResponse_witness :
  exists e,
    analyzeSkinImage (host_answering (js "```json" ++ [10%N] ++ js "```"))
      image_data image_type initial_state
    = (Rejected e, after_call initial_state)
    /\ error_kind e = Some EmptyResponse
    /\ error_kind e <> Some MalformedJSON.
Proof.
  apply (@empty_after_cleaning_is_EmptyResponse
           (host_answering (js "```json" ++ [10%N] ++ js "```"))
           image_data image_type initial_state
           (js "```json" ++ [10%N] ++ js "```"));
    [reflexivity | reflexivity | right; reflexivity].
Defined.

(** C4, where the code departs from it: a response made of fence markers
    only, a bare opening marker, a line break and a closing marker, keeps
    its opening marker and fails as [MalformedJSON]; with the [json]
    annotation the same response fails as [EmptyResponse]. *)
Lemma bare_fence_pair_is_MalformedJSON :
  fenced_bare [] [10%N] [] [] [] = js "```" ++ [10%N] ++ js "```"
  /\ (exists e,
        fst (run (fenced_bare [] [10%N] [] [] [])) = Rejected e
        /\ error_kind e = Some MalformedJSON
        /\ error_kind e <> Some EmptyResponse)
  /\ (exists e,
        fst (run (fenced_json [] [10%N] [] [] [])) = Rejected e
        /\ error_kind e = Some EmptyResponse).
Proof.
  split; [reflexivity|]. split.
  - eexists. split; [vm_compute; reflexivity|].
    split; [vm_compute; reflexivity | vm_compute; discriminate].
  - eexists. split; vm_compute; reflexivity.
Qed.

(** White space only, a lone closing marker, a lone [json] marker. *)
Lemma empty_response_examples :
  Forall (fun text =>
            exists e, fst (run text) = Rejected e
                      /\ error_kind e = Some EmptyResponse)
         [ js "  " ++ [9%N; 10%N; 13%N; 160%N];
           js "```";
           js "```json";
           js " ```json```  " ].
Proof.
  repeat constructor; eexists; split; vm_compute; reflexivity.
Qed.

(** ** C5: no credential *)

(** C5, amended: without an environment credential, [analyzeSkinImage]
    fails with its own credential-missing error (message "API_KEY is not
    defined. Please select an API key to proceed."), before any request is
    built and without a remote call, whatever was selected before. This is
    not the error [API_KEY_REQUIRED_NO_AISTUDIO], the kind
    [CredentialRequiredNoPicker], which [checkAndPromptApiKey] raises when
    there is neither picker nor environment credential. *)
Theorem missing_credential_fails_before_request
        (h : Host) (img mime : jsstring) (st : State) :
  isProcessEnvApiKeySet h = false ->
  analyzeSkinImage h img mime st = (Rejected (Error msg_no_api_key), st)
  /\ generateContent_calls (snd (analyzeSkinImage h img mime st))
     = generateContent_calls st
  /\ error_kind (Error msg_no_api_key) = Some CredentialMissing
  /\ (window_aistudio h = None ->
      checkAndPromptApiKey h st
      = (Rejected (Error API_KEY_REQUIRED_NO_AISTUDIO), st)
      /\ error_kind (Error API_KEY_REQUIRED_NO_AISTUDIO)
         = Some CredentialRequiredNoPicker).
Proof.
  intros Hk. unfold analyzeSkinImage, checkAndPromptApiKey. rewrite Hk.
  split; [reflexivity|]. split; [reflexivity|]. split; [reflexivity|].
  intros ->. split; reflexivity.
Qed.

Lemma missing_credential_fails_before_request_witness :
  analyzeSkinImage host_without_credential image_data image_type initial_state
  = (Rejected (Error msg_no_api_key), initial_state).
Proof.
  apply (@missing_credential_fails_before_request host_without_credential
           image_data image_type initial_state).
  reflexivity.
Defined.

(** C5 as stated fails: with neither selection nor environment credential
    the error of [analyzeSkinImage] is not the one of kind
    [CredentialRequiredNoPicker], and the scan page treats it as a generic
    analysis failure: it does not ask for a credential. *)
Lemma missing_credential_is_not_CredentialRequiredNoPicker :
  isProcessEnvApiKeySet host_without_credential = false
  /\ hasUserSelectedApiKeyAssumeSuccess initial_state = false
  /\ (exists e,
        analyzeSkinImage host_without_credential image_data image_type
          initial_state
        = (Rejected e, initial_state)
        /\ e <> Error API_KEY_REQUIRED_NO_AISTUDIO
        /\ error_kind e <> Some CredentialRequiredNoPicker)
  /\ (exists p,
        ScanPage.run_events (ScanPage.mount host0 ScanPage.CamGranted)
          [ScanPage.ChooseFile (Some (js "image/png", Resolved image_data));
           ScanPage.AnalyzeSkin host_without_credential]
        = Some p
        /\ ScanPage.apiKeyRequired (ScanPage.ui p) = false
        /\ ScanPage.error (ScanPage.ui p)
           = Some (js "Analysis failed: " ++ msg_no_api_key ++ js ".")).
Proof.
  split; [reflexivity|]. split; [reflexivity|]. split.
  - exists (Error msg_no_api_key).
    split; [reflexivity|]. split; vm_compute; discriminate.
  - eexists. split; [vm_compute; reflexivity|].
    split; vm_compute; reflexivity.
Qed.

(** ** C6: credential-error recovery *)

(** C6: an error whose message does not contain "Requested entity was not
    found." is thrown again as it is, and the flag (with the rest of the
    module state) stays as it was. *)
Theorem handleApiKeyError_rethrows_unrelated
        (h : Host) (error : JsError) (st : State) :
  (forall m, err_message error = Some m -> includes entity_not_found m = false) ->
  handleApiKeyError h error st = (Rejected error, st)
  /\ hasUserSelectedApiKeyAssumeSuccess (snd (handleApiKeyError h error st))
     = hasUserSelectedApiKeyAssumeSuccess st.
Proof.
  intros H.
  assert (Hs : matches_signal error = false).
  { unfold matches_signal. destruct (err_message error) as [m|];
      [|reflexivity].
    rewrite (H m eq_refl). apply andb_false_r. }
  rewrite (handleApiKeyError_rethrows h error st Hs). now split.
Qed.

Lemma handleApiKeyError_rethrows_unrelated_witness :
  handleApiKeyError host0 (TypeError (js "Failed to fetch")) initial_state
  = (Rejected (TypeError (js "Failed to fetch")), initial_state).
Proof.
  apply (@handleApiKeyError_rethrows_unrelated host0
           (TypeError (js "Failed to fetch")) initial_state).
  intros m E. injection E as <-. reflexivity.
Defined.

(** The flag changes only on the signal, and then it is cleared before
    anything else happens. *)
Lemma handleApiKeyError_flag_changes_only_on_signal
      (h : Host) (error : JsError) (st : State) :
  hasUserSelectedApiKeyAssumeSuccess (snd (handleApiKeyError h error st))
  <> hasUserSelectedApiKeyAssumeSuccess st ->
  matches_signal error = true.
Proof.
  destruct (matches_signal error) eqn:Hs; [reflexivity|].
  rewrite (handleApiKeyError_rethrows h error st Hs). simpl. congruence.
Qed.

Lemma handleApiKeyError_resets_flag_without_picker
      (h : Host) (error : JsError) (st : State) :
  matches_signal error = true -> window_aistudio h = None ->
  hasUserSelectedApiKeyAssumeSuccess (snd (handleApiKeyError h error st))
  = false.
Proof.
  intros Hs Ha. unfold handleApiKeyError. rewrite Hs, Ha.
  unfold bind, write_flag, throw. destruct (isProcessEnvApiKeySet h);
    reflexivity.
Qed.

(** ** C7: valid responses *)

(** C7: a parsed response that passes the three validations is returned
    as it was parsed, after one remote call and with the flag untouched. *)
Theorem valid_response_is_returned_verbatim
        (h : Host) (img mime : jsstring) (st : State) (v : jsval) :
  parsedResult h img mime = Some v ->
  top_level_malformed v = false ->
  for_of requiredIssueKeys (check_issue (get v (js "issues"))) = Resolved tt ->
  for_of requiredRecommendationKeys
         (check_recommendation (get v (js "recommendations"))) = Resolved tt ->
  analyzeSkinImage h img mime st = (Resolved v, after_call st).
Proof.
  intros Hp Ht Hi Hr.
  rewrite (analyzeSkinImage_validates h img mime st Hp).
  unfold validate, validate_top_level. rewrite Ht. cbn [and_then].
  rewrite Hi. cbn [and_then]. rewrite Hr. reflexivity.
Qed.

Lemma valid_response_is_returned_verbatim_witness :
  JSON.parse valid_text = Some valid_value
  /\ analyzeSkinImage (host_answering valid_text) image_data image_type
       initial_state
     = (Resolved valid_value, after_call initial_state).
Proof.
  split; [vm_compute; reflexivity|].
  apply (@valid_response_is_returned_verbatim (host_answering valid_text)
           image_data image_type initial_state valid_value);
    vm_compute; reflexivity.
Defined.

(** ** C8: the camera stream *)

(** C8, where the code departs from it: mounted with a credential and a
    camera that grants a stream, the page gets a stream from the camera
    and neither keeps nor stops it, because the [<video>] element it would
    attach it to is not rendered while the page initialises. After an
    upload, a retake gets a second stream the same way: two streams are
    live, none was stopped, the page holds none and is not in
    [CameraReady]. Leaving the page stops nothing either. *)
Theorem retake_leaves_two_live_streams :
  active_streams (camera (mount host0 CamGranted)) = [0]
  /\ stream (ui (mount host0 CamGranted)) = None
  /\ CameraReady (mount host0 CamGranted) = false
  /\ (exists p,
        run_events (mount host0 CamGranted) upload_then_retake = Some p
        /\ active_streams (camera p) = [0; 1]
        /\ stops (camera p) = []
        /\ stream (ui p) = None
        /\ CameraReady p = false)
  /\ active_streams (camera (unmount (mount host0 CamGranted))) = [0].
Proof.
  split; [vm_compute; reflexivity|]. split; [vm_compute; reflexivity|].
  split; [vm_compute; reflexivity|].
  split; [|vm_compute; reflexivity].
  eexists. split; [vm_compute; reflexivity|].
  split; [vm_compute; reflexivity|]. split; [vm_compute; reflexivity|].
  split; vm_compute; reflexivity.
Qed.

(** ** C9: the empty explanation *)

(** C9: a parsed response whose [explainability] is falsy, the empty
    string in particular, is rejected by the top-level check whatever its
    other fields are. *)
Theorem falsy_explainability_is_rejected
        (h : Host) (img mime : jsstring) (st : State) (v : jsval) :
  parsedResult h img mime = Some v ->
  truthy (get v (js "explainability")) = false ->
  analyzeSkinImage h img mime st
  = (Rejected (Error msg_top_level), after_call st)
  /\ error_kind (Error msg_top_level) = Some InvalidTopLevel.
Proof.
  intros Hp He. split; [|reflexivity].
  rewrite (analyzeSkinImage_validates h img mime st Hp).
  unfold validate, validate_top_level, top_level_malformed.
  rewrite He. cbn [negb]. rewrite orb_true_r. reflexivity.
Qed.

Lemma falsy_explainability_is_rejected_witness :
  get (parsed empty_explainability_text) (js "explainability") = JString []
  /\ set (parsed empty_explainability_text) (js "explainability")
         (JString (js "Oily T-zone with mild acne."))
     = valid_value
  /\ analyzeSkinImage (host_answering empty_explainability_text)
       image_data image_type initial_state
     = (Rejected (Error msg_top_level), after_call initial_state).
Proof.
  split; [vm_compute; reflexivity|]. split; [vm_compute; reflexivity|].
  apply (@falsy_explainability_is_rejected
           (host_answering empty_explainability_text)
           image_data image_type initial_state
           (parsed empty_explainability_text));
    vm_compute; reflexivity.
Defined.

(** ** C10: the optional areas *)

(** C10: the [areas] of the nine entries with a [severity] is not looked
    at. A response that passes the validations still passes them, and is
    returned as it is, with any value at all in the place of [areas]. *)
Theorem areas_is_never_checked
        (h : Host) (img mime : jsstring) (st : State) (v : jsval)
        (key : jsstring) (areas : jsval) :
  In key severityIssueKeys ->
  validate v = Resolved v ->
  parsedResult h img mime = Some (with_areas v key areas) ->
  analyzeSkinImage h img mime st
  = (Resolved (with_areas v key areas), after_call st)
  /\ get (get (get (with_areas v key areas) (js "issues")) key) (js "areas")
     = areas.
Proof.
  intros Hkey Hv Hp.
  rewrite (analyzeSkinImage_validates h img mime st Hp).
  rewrite (with_areas_valid areas Hkey Hv). split; [reflexivity|].
  apply severity_key_is_required in Hkey as (Hreq & _).
  unfold validate, validate_top_level in Hv.
  destruct (top_level_malformed v) eqn:Ht; [discriminate Hv|].
  cbn [and_then] in Hv.
  destruct (for_of requiredIssueKeys _) as [[]|] eqn:Hi; [|discriminate Hv].
  apply top_level_ok_inv in Ht as (fields & -> & _).
  rewrite get_object in Hi.
  pose proof (for_of_resolved_inv _ _ key Hi Hreq) as Hck.
  apply check_issue_resolved_iff in Hck.
  destruct (well_formed_entry_is_object _ _ Hck) as (ifs & efs & Eifs & Eefs).
  unfold with_areas. cbn [get]. rewrite Eifs. cbn [get set]. rewrite Eefs.
  cbn [get set]. rewrite lookup_set_field_same, get_object.
  rewrite lookup_set_field_same, get_object.
  apply lookup_set_field_same.
Qed.

Lemma areas_is_never_checked_witness :
  parsed areas_number_text
  = with_areas valid_value (js "acne") (JNumber (Num 7 0))
  /\ analyzeSkinImage (host_answering areas_number_text) image_data image_type
       initial_state
     = (Resolved (with_areas valid_value (js "acne") (JNumber (Num 7 0))),
        after_call initial_state).
Proof.
  split; [vm_compute; reflexivity|].
  apply (@areas_is_never_checked (host_answering areas_number_text)
           image_data image_type initial_state valid_value (js "acne")
           (JNumber (Num 7 0)));
    [left; reflexivity | vm_compute; reflexivity | vm_compute; reflexivity].
Defined.

(* ================================================================== *)
(** * Further properties: credentials                                  *)
(* ================================================================== *)

Import MoreSamples.

(** X1: when [checkAndPromptApiKey] resolves, the selection flag is set,
    and the remote model was not called. *)
Theorem checkAndPromptApiKey_resolved_sets_flag
        (h : Host) (st st' : State) :
  checkAndPromptApiKey h st = (Resolved tt, st') ->
  hasUserSelectedApiKeyAssumeSuccess st' = true
  /\ generateContent_calls st' = generateContent_calls st.
Proof.
  unfold checkAndPromptApiKey.
  destruct (window_aistudio h) as [a|] eqn:Ea.
  - destruct (hasSelectedApiKey a) as [[hasKey|e]|] eqn:Eh.
    + unfold bind, await, read_flag, try_catch, call_openSelectKey.
      destruct (negb hasKey || negb (hasUserSelectedApiKeyAssumeSuccess st))
        eqn:Ep.
      * rewrite Ea. destruct (openSelectKey a) as [[[]|e]|];
          unfold throw, write_flag; intros H; inversion H; now split.
      * unfold ret. intros H. inversion H. subst st'. split; [|reflexivity].
        apply orb_false_iff in Ep as [_ Ep]. now apply negb_false_iff in Ep.
    + unfold bind, await. discriminate.
    + destruct (isProcessEnvApiKeySet h); unfold throw, write_flag;
        intros H; inversion H; now split.
  - destruct (isProcessEnvApiKeySet h); unfold throw, write_flag;
      intros H; inversion H; now split.
Qed.

Lemma checkAndPromptApiKey_resolved_sets_flag_witness :
  hasUserSelectedApiKeyAssumeSuccess
    (snd (checkAndPromptApiKey
            (host_with_picker false (Resolved tt) (Resolved []))
            initial_state))
  = true.
Proof.
  apply (@checkAndPromptApiKey_resolved_sets_flag
           (host_with_picker false (Resolved tt) (Resolved []))
           initial_state
           (snd (checkAndPromptApiKey
                   (host_with_picker false (Resolved tt) (Resolved []))
                   initial_state))).
  reflexivity.
Defined.

(** X2: when [checkAndPromptApiKey] rejects, the flag and the call counts
    of the remote model are as before, and the error is
    [API_KEY_REQUIRED_NO_AISTUDIO] (no picker, no environment credential),
    [API_KEY_SELECTION_FAILED] (the dialog failed), or the rejection of
    [hasSelectedApiKey] itself. *)
Theorem checkAndPromptApiKey_rejected_keeps_flag
        (h : Host) (st st' : State) (e : JsError) :
  checkAndPromptApiKey h st = (Rejected e, st') ->
  hasUserSelectedApiKeyAssumeSuccess st'
  = hasUserSelectedApiKeyAssumeSuccess st
  /\ generateContent_calls st' = generateContent_calls st
  /\ ((e = Error API_KEY_REQUIRED_NO_AISTUDIO
       /\ isProcessEnvApiKeySet h = false)
      \/ e = Error API_KEY_SELECTION_FAILED
      \/ exists a, window_aistudio h = Some a
                   /\ hasSelectedApiKey a = Some (Rejected e)).
Proof.
  unfold checkAndPromptApiKey.
  destruct (window_aistudio h) as [a|] eqn:Ea.
  - destruct (hasSelectedApiKey a) as [[hasKey|e0]|] eqn:Eh.
    + unfold bind, await, read_flag, try_catch, call_openSelectKey.
      destruct (negb hasKey || negb (hasUserSelectedApiKeyAssumeSuccess st)).
      * rewrite Ea. destruct (openSelectKey a) as [[[]|e1]|];
          unfold throw, write_flag; intros H; inversion H; auto.
      * unfold ret. discriminate.
    + unfold bind, await. intros H. inversion H. subst.
      repeat split. right. right. eauto.
    + destruct (isProcessEnvApiKeySet h) eqn:Ek; unfold throw, write_flag;
        intros H; inversion H; auto.
  - destruct (isProcessEnvApiKeySet h) eqn:Ek; unfold throw, write_flag;
      intros H; inversion H; auto.
Qed.

Lemma checkAndPromptApiKey_rejected_keeps_flag_witness :
  checkAndPromptApiKey (host_with_picker true (Rejected cancelled) (Resolved []))
    initial_state
  = (Rejected (Error API_KEY_SELECTION_FAILED),
     {| hasUserSelectedApiKeyAssumeSuccess := false;
        generateContent_calls := 0; openSelectKey_calls := 1 |})
  /\ hasUserSelectedApiKeyAssumeSuccess
       (snd (checkAndPromptApiKey
               (host_with_picker true (Rejected cancelled) (Resolved []))
               initial_state))
     = hasUserSelectedApiKeyAssumeSuccess initial_state.
Proof.
  split; [reflexivity|].
  eapply (@checkAndPromptApiKey_rejected_keeps_flag
            (host_with_picker true (Rejected cancelled) (Resolved []))
            initial_state).
  reflexivity.
Defined.

(** X3: with a picker, the dialog is opened exactly when the picker
    reports no selected key or the flag is not set: a first call opens it
    even if a key is already selected, and while the picker reports no
    key every call opens it again. *)
Theorem checkAndPromptApiKey_prompts
        (h : Host) (st : State) (a : AIStudio) (hasKey : bool)
        (dialog : settled unit) :
  window_aistudio h = Some a ->
  hasSelectedApiKey a = Some (Resolved hasKey) ->
  openSelectKey a = Some dialog ->
  openSelectKey_calls (snd (checkAndPromptApiKey h st))
  = if hasKey && hasUserSelectedApiKeyAssumeSuccess st
    then openSelectKey_calls st
    else S (openSelectKey_calls st).
Proof.
  intros Ea Eh Eo. unfold checkAndPromptApiKey. rewrite Ea, Eh.
  unfold bind, await, read_flag, try_catch, call_openSelectKey.
  rewrite Ea, Eo.
  destruct hasKey, (hasUserSelectedApiKeyAssumeSuccess st);
    destruct dialog as [[]|e]; reflexivity.
Qed.

Lemma checkAndPromptApiKey_prompts_witness :
  openSelectKey_calls
    (snd (checkAndPromptApiKey
            (host_with_picker true (Resolved tt) (Resolved []))
            initial_state))
  = 1.
Proof.
  apply (@checkAndPromptApiKey_prompts
           (host_with_picker true (Resolved tt) (Resolved []))
           initial_state (picker true (Resolved tt)) true (Resolved tt));
    reflexivity.
Defined.

(** X4: once [checkAndPromptApiKey] has resolved, calling it again changes
    nothing and opens no dialog, unless the picker reports that no key is
    selected. *)
Theorem checkAndPromptApiKey_idempotent
        (h : Host) (st st1 : State) :
  checkAndPromptApiKey h st = (Resolved tt, st1) ->
  (forall a, window_aistudio h = Some a ->
             hasSelectedApiKey a <> Some (Resolved false)) ->
  checkAndPromptApiKey h st1 = (Resolved tt, st1).
Proof.
  intros H1 Hsel. revert H1. unfold checkAndPromptApiKey.
  destruct (window_aistudio h) as [a|] eqn:Ea.
  - specialize (Hsel a eq_refl).
    destruct (hasSelectedApiKey a) as [[hasKey|e]|] eqn:Eh.
    + destruct hasKey; [|congruence].
      unfold bind, await, read_flag, try_catch, call_openSelectKey.
      rewrite Ea. cbn [negb orb].
      destruct (hasUserSelectedApiKeyAssumeSuccess st) eqn:Ef; cbn [negb].
      * unfold ret. intros H. inversion H. subst st1. now rewrite Ef.
      * destruct (openSelectKey a) as [[[]|e]|];
          unfold throw, write_flag; intros H; inversion H. reflexivity.
    + unfold bind, await. discriminate.
    + destruct (isProcessEnvApiKeySet h); unfold throw, write_flag;
        intros H; inversion H. reflexivity.
  - destruct (isProcessEnvApiKeySet h); unfold throw, write_flag;
      intros H; inversion H. reflexivity.
Qed.

Lemma checkAndPromptApiKey_idempotent_witness :
  let h := host_with_picker true (Resolved tt) (Resolved []) in
  let st1 := snd (checkAndPromptApiKey h initial_state) in
  checkAndPromptApiKey h st1 = (Resolved tt, st1).
Proof.
  apply (@checkAndPromptApiKey_idempotent
           (host_with_picker true (Resolved tt) (Resolved []))
           initial_state).
  - reflexivity.
  - intros a E. injection E as <-. discriminate.
Defined.

(** X5: [handleApiKeyError] never resolves: whatever the error and the
    host, it ends by throwing. *)
Theorem handleApiKeyError_always_throws
        (h : Host) (error : JsError) (st : State) :
  exists e, fst (handleApiKeyError h error st) = Rejected e.
Proof.
  unfold handleApiKeyError. destruct (matches_signal error); [|simpl; eauto].
  unfold bind, write_flag, try_catch, call_openSelectKey, throw, ret.
  destruct (window_aistudio h) as [a|];
    [destruct (openSelectKey a) as [[[]|e]|]|];
    try destruct (isProcessEnvApiKeySet h); simpl; eauto.
Qed.

(** X6: on an error that carries the signal, [handleApiKeyError] replaces
    it by one of three credential errors, does not call the remote model,
    and leaves the flag set exactly when a picker exists and its dialog
    succeeded. *)
Theorem handleApiKeyError_on_signal
        (h : Host) (error : JsError) (st : State) :
  matches_signal error = true ->
  (exists code,
      fst (handleApiKeyError h error st) = Rejected (Error code)
      /\ (code = API_KEY_INVALID_OR_UNSELECTED
          \/ code = API_KEY_RESELECTION_FAILED
          \/ code = API_KEY_REQUIRED_NO_AISTUDIO))
  /\ (hasUserSelectedApiKeyAssumeSuccess (snd (handleApiKeyError h error st))
      = true
      <-> exists a, window_aistudio h = Some a
                    /\ openSelectKey a = Some (Resolved tt))
  /\ generateContent_calls (snd (handleApiKeyError h error st))
     = generateContent_calls st.
Proof.
  intros Hs. unfold handleApiKeyError. rewrite Hs.
  unfold bind, write_flag, try_catch, call_openSelectKey, throw, ret.
  destruct (window_aistudio h) as [a|] eqn:Ea.
  - destruct (openSelectKey a) as [[[]|e]|] eqn:Eo; simpl.
    + split; [eauto|]. split; [|reflexivity]. split; eauto.
    + split; [eauto 6|]. split; [|reflexivity].
      split; [discriminate|]. intros (a' & E & E'). congruence.
    + destruct (isProcessEnvApiKeySet h); simpl;
        (split; [eauto 6|]); (split; [|reflexivity]);
        (split; [discriminate|]); intros (a' & E & E'); congruence.
  - destruct (isProcessEnvApiKeySet h); simpl;
      (split; [eauto 6|]); (split; [|reflexivity]);
      (split; [discriminate|]); intros (a' & E & E'); congruence.
Qed.

Lemma handleApiKeyError_on_signal_witness :
  fst (handleApiKeyError (host_with_picker true (Resolved tt) (Resolved []))
         entity_error initial_state)
  = Rejected (Error API_KEY_INVALID_OR_UNSELECTED)
  /\ exists code,
       fst (handleApiKeyError
              (host_with_picker true (Resolved tt) (Resolved []))
              entity_error initial_state)
       = Rejected (Error code)
       /\ (code = API_KEY_INVALID_OR_UNSELECTED
           \/ code = API_KEY_RESELECTION_FAILED
           \/ code = API_KEY_REQUIRED_NO_AISTUDIO).
Proof.
  split; [vm_compute; reflexivity|].
  apply (@handleApiKeyError_on_signal
           (host_with_picker true (Resolved tt) (Resolved []))
           entity_error initial_state).
  vm_compute. reflexivity.
Defined.

(* ================================================================== *)
(** * Further facts about the service                                  *)
(* ================================================================== *)

Module MoreServiceFacts.

Import JS GeminiService Notions.
Import JSFacts ServiceFacts ValidationFacts.
Local Open Scope list_scope.

Lemma includes_suffix (p a s : jsstring) :
  includes p s = true -> includes p (a ++ s) = true.
Proof.
  intros H. induction a as [|x a IH]; simpl; [exact H|].
  rewrite IH. apply orb_true_r.
Qed.

(** The recovery leaves the count of remote calls alone and opens the
    dialog at most once. *)
Lemma handleApiKeyError_counts (h : Host) (e : JsError) (st : State) :
  generateContent_calls (snd (handleApiKeyError h e st))
  = generateContent_calls st
  /\ openSelectKey_calls (snd (handleApiKeyError h e st))
     <= S (openSelectKey_calls st).
Proof.
  unfold handleApiKeyError. destruct (matches_signal e); [|simpl; lia].
  unfold bind, write_flag, try_catch, call_openSelectKey, throw, ret.
  destruct (window_aistudio h) as [a|];
    [destruct (openSelectKey a) as [[[]|e']|]|];
    try destruct (isProcessEnvApiKeySet h); simpl; lia.
Qed.

(** On the signal the recovery throws one of its three codes. *)
Lemma handleApiKeyError_signal_codes (h : Host) (e : JsError) (st : State) :
  matches_signal e = true ->
  exists code,
    fst (handleApiKeyError h e st) = Rejected (Error code)
    /\ (code = API_KEY_INVALID_OR_UNSELECTED
        \/ code = API_KEY_RESELECTION_FAILED
        \/ code = API_KEY_REQUIRED_NO_AISTUDIO).
Proof.
  intros Hs. unfold handleApiKeyError. rewrite Hs.
  unfold bind, write_flag, try_catch, call_openSelectKey, throw, ret.
  destruct (window_aistudio h) as [a|];
    [destruct (openSelectKey a) as [[[]|e']|]|];
    try destruct (isProcessEnvApiKeySet h); simpl; eauto 6.
Qed.

(** With a credential in the environment, the call is one remote call,
    the response handling, and the recovery if either failed. *)
Lemma analyzeSkinImage_unfold (h : Host) (img mime : jsstring) (st : State) :
  isProcessEnvApiKeySet h = true ->
  analyzeSkinImage h img mime st
  = match and_then (generateContent h mime img) (handle_response h) with
    | Resolved v => (Resolved v, after_call st)
    | Rejected e =>
        match handleApiKeyError h e (after_call st) with
        | (Resolved _, st') => (Rejected e, st')
        | (Rejected e', st') => (Rejected e', st')
        end
    end.
Proof.
  intros Hk. unfold analyzeSkinImage. rewrite Hk. cbn [negb].
  unfold try_catch, bind, call_generateContent, await, throw.
  fold (after_call st).
  destruct (generateContent h mime img) as [text|e]; cbn [and_then].
  - destruct (handle_response h text) as [v|e]; [reflexivity|].
    destruct (handleApiKeyError h e (after_call st)) as [[[]|e'] st'];
      reflexivity.
  - destruct (handleApiKeyError h e (after_call st)) as [[[]|e'] st'];
      reflexivity.
Qed.

Lemma check_recommendation_resolved_iff (recs : jsval) (key : jsstring) :
  check_recommendation recs key = Resolved tt
  <-> recommendation_malformed recs key = false.
Proof.
  unfold check_recommendation, recommendation_malformed.
  destruct (get recs key) as [| |b|n|s|items|fields];
    cbn [Array_isArray Array_every negb orb]; try (split; discriminate).
  destruct (forallb is_string items); cbn [negb]; split;
    (reflexivity || discriminate).
Qed.

(** What the three validations accept. *)
Lemma validate_accepts_iff (v : jsval) :
  validate v = Resolved v
  <-> top_level_malformed v = false
      /\ (forall key, In key requiredIssueKeys ->
                      issue_malformed (get v (js "issues")) key = false)
      /\ (forall key, In key requiredRecommendationKeys ->
                      recommendation_malformed (get v (js "recommendations"))
                        key = false).
Proof.
  unfold validate, validate_top_level. split.
  - destruct (top_level_malformed v); cbn [and_then]; [discriminate|].
    destruct (for_of requiredIssueKeys _) as [[]|] eqn:Hi; cbn [and_then];
      [|discriminate].
    destruct (for_of requiredRecommendationKeys _) as [[]|] eqn:Hr;
      cbn [and_then]; [|discriminate].
    intros _. split; [reflexivity|]. split; intros key Hkey.
    + apply check_issue_resolved_iff.
      exact (for_of_resolved_inv _ _ key Hi Hkey).
    + apply check_recommendation_resolved_iff.
      exact (for_of_resolved_inv _ _ key Hr Hkey).
  - intros (Ht & Hi & Hr). rewrite Ht. cbn [and_then].
    rewrite for_of_resolved
      by (intros key Hkey; now apply check_issue_resolved_iff, Hi).
    cbn [and_then].
    rewrite for_of_resolved
      by (intros key Hkey; now apply check_recommendation_resolved_iff, Hr).
    reflexivity.
Qed.

(** The message of an unparseable response has the kind [MalformedJSON]
    and ends with the text that did not parse. *)
Lemma msg_not_json_kind (details raw : jsstring) :
  error_kind (Error (msg_not_json details raw)) = Some MalformedJSON.
Proof. vm_compute. reflexivity. Qed.

Lemma msg_not_json_includes_raw (details raw : jsstring) :
  includes raw (msg_not_json details raw) = true.
Proof.
  unfold msg_not_json. rewrite !app_assoc.
  rewrite <- (app_nil_r raw) at 2. apply includes_app.
Qed.

(** A value the call resolves with is the parsed response, and passed
    the validations; one remote call was made. *)
Lemma analyzeSkinImage_resolved_inv (h : Host) (img mime : jsstring)
      (st st' : State) (v : jsval) :
  analyzeSkinImage h img mime st = (Resolved v, st') ->
  parsedResult h img mime = Some v /\ validate v = Resolved v
  /\ st' = after_call st.
Proof.
  intros H. destruct (isProcessEnvApiKeySet h) eqn:Hk.
  2:{ unfold analyzeSkinImage in H. rewrite Hk in H. discriminate H. }
  rewrite (analyzeSkinImage_unfold h img mime st Hk) in H.
  unfold parsedResult. rewrite Hk.
  destruct (generateContent h mime img) as [text|e]; cbn [and_then] in H.
  - unfold handle_response in H.
    destruct (clean_response text) as [jsonStr|e]; cbn [and_then] in H.
    + unfold parse_json in H.
      destruct (JSON.parse jsonStr) as [v0|]; cbn [and_then] in H.
      * destruct (validate v0) as [r|e] eqn:Ev.
        -- pose proof (validate_resolved _ Ev) as ->.
           inversion H. subst. auto.
        -- destruct (handleApiKeyError h e _) as [[[]|e'] st''];
             discriminate H.
      * destruct (handleApiKeyError h _ _) as [[[]|e'] st''];
          discriminate H.
    + destruct (handleApiKeyError h e _) as [[[]|e'] st''];
        discriminate H.
  - destruct (handleApiKeyError h e _) as [[[]|e'] st''];
      discriminate H.
Qed.

End MoreServiceFacts.

(* ================================================================== *)
(** * Further properties: the analysis call                            *)
(* ================================================================== *)

Import Notions MoreServiceFacts.

(** X7: [analyzeSkinImage] resolves with [v] exactly when the remote call
    was made once, the cleaned response parses to [v], the top-level check
    passes, the ten issue entries are well formed and the four
    recommendations are lists of strings: nothing else reaches the
    caller, and the flag is as it was. *)
Theorem analyzeSkinImage_resolves_iff
        (h : Host) (img mime : jsstring) (st st' : State) (v : jsval) :
  analyzeSkinImage h img mime st = (Resolved v, st')
  <-> st' = after_call st
      /\ parsedResult h img mime = Some v
      /\ top_level_malformed v = false
      /\ (forall key, In key requiredIssueKeys ->
                      issue_malformed (get v (js "issues")) key = false)
      /\ (forall key, In key requiredRecommendationKeys ->
                      exists items,
                        get (get v (js "recommendations")) key = JArray items
                        /\ forallb is_string items = true).
Proof.
  assert (R : forall recs key,
             recommendation_malformed recs key = false
             <-> exists items, get recs key = JArray items
                               /\ forallb is_string items = true).
  { intros recs key. unfold recommendation_malformed. split.
    - destruct (get recs key) as [| |b|n|s|items|fields]; try discriminate.
      intros H. apply negb_false_iff in H. eauto.
    - intros (items & -> & ->). reflexivity. }
  split.
  - intros H.
    pose proof (analyzeSkinImage_resolved_inv _ _ _ _ H) as P.
    destruct P as (Hp & Hv & ->). apply validate_accepts_iff in Hv
      as (Ht & Hi & Hr).
    repeat (split; [assumption || reflexivity|]).
    intros key Hkey. now apply R, Hr.
  - intros (-> & Hp & Ht & Hi & Hr).
    rewrite (analyzeSkinImage_validates h img mime st Hp).
    f_equal. apply validate_accepts_iff. split; [exact Ht|].
    split; [exact Hi|]. intros key Hkey. now apply R, Hr.
Qed.

Lemma analyzeSkinImage_resolves_iff_witness :
  parsedResult (host_answering valid_text) image_data image_type
  = Some valid_value
  /\ top_level_malformed valid_value = false.
Proof.
  destruct (proj1 (@analyzeSkinImage_resolves_iff
                     (host_answering valid_text) image_data image_type
                     initial_state (after_call initial_state) valid_value))
    as (_ & Hp & Ht & _); [vm_compute; reflexivity|].
  split; assumption.
Defined.

(** X8: the remote model is called once when the environment holds a
    credential and not at all otherwise, whatever happens next, and the
    dialog is opened at most once: a failed call is never tried again. *)
Theorem analyzeSkinImage_calls_remote_once
        (h : Host) (img mime : jsstring) (st : State) :
  generateContent_calls (snd (analyzeSkinImage h img mime st))
  = (if isProcessEnvApiKeySet h
     then S (generateContent_calls st)
     else generateContent_calls st)
  /\ openSelectKey_calls (snd (analyzeSkinImage h img mime st))
     <= S (openSelectKey_calls st).
Proof.
  destruct (isProcessEnvApiKeySet h) eqn:Hk.
  - rewrite (analyzeSkinImage_unfold h img mime st Hk).
    destruct (and_then _ _) as [v|e]; [simpl; lia|].
    pose proof (handleApiKeyError_counts h e (after_call st)) as (Hg & Ho).
    destruct (handleApiKeyError h e (after_call st)) as [[[]|e'] st'];
      simpl in *; lia.
  - unfold analyzeSkinImage. rewrite Hk. simpl. lia.
Qed.

(** X9: a failure of the remote call whose message does not carry the
    credential signal reaches the caller as the same error, after that
    one call, with the flag untouched and no dialog. *)
Theorem remote_failure_reaches_caller
        (h : Host) (img mime : jsstring) (st : State) (e : JsError) :
  isProcessEnvApiKeySet h = true ->
  generateContent h mime img = Rejected e ->
  matches_signal e = false ->
  analyzeSkinImage h img mime st = (Rejected e, after_call st).
Proof.
  intros Hk Hg Hs. rewrite (analyzeSkinImage_unfold h img mime st Hk), Hg.
  cbn [and_then]. now rewrite (handleApiKeyError_rethrows h e _ Hs).
Qed.

Lemma remote_failure_reaches_caller_witness :
  analyzeSkinImage (host_failing network_error) image_data image_type
    initial_state
  = (Rejected network_error, after_call initial_state).
Proof.
  apply (@remote_failure_reaches_caller (host_failing network_error)
           image_data image_type initial_state network_error);
    reflexivity.
Defined.

(** X10: when the remote call fails with the credential signal and the
    host has a picker, the caller does not see the remote error: the
    dialog is opened once, and the call ends with
    [API_KEY_INVALID_OR_UNSELECTED] and the flag set if the dialog
    succeeded, with [API_KEY_RESELECTION_FAILED] and the flag cleared if
    it did not. *)
Theorem rejected_credential_opens_picker
        (h : Host) (img mime : jsstring) (st : State) (e : JsError)
        (a : AIStudio) (dialog : settled unit) :
  isProcessEnvApiKeySet h = true ->
  generateContent h mime img = Rejected e ->
  matches_signal e = true ->
  window_aistudio h = Some a ->
  openSelectKey a = Some dialog ->
  analyzeSkinImage h img mime st
  = (Rejected (Error (match dialog with
                      | Resolved _ => API_KEY_INVALID_OR_UNSELECTED
                      | Rejected _ => API_KEY_RESELECTION_FAILED
                      end)),
     {| hasUserSelectedApiKeyAssumeSuccess :=
          match dialog with Resolved _ => true | Rejected _ => false end;
        generateContent_calls := S (generateContent_calls st);
        openSelectKey_calls := S (openSelectKey_calls st) |}).
Proof.
  intros Hk Hg Hs Ha Ho.
  rewrite (analyzeSkinImage_unfold h img mime st Hk), Hg. cbn [and_then].
  unfold handleApiKeyError. rewrite Hs.
  unfold bind, write_flag, try_catch, call_openSelectKey, throw, ret.
  rewrite Ha, Ho. destruct dialog as [[]|e']; reflexivity.
Qed.

Lemma rejected_credential_opens_picker_witness :
  analyzeSkinImage
    (host_with_picker true (Rejected cancelled) (Rejected entity_error))
    image_data image_type initial_state
  = (Rejected (Error API_KEY_RESELECTION_FAILED),
     {| hasUserSelectedApiKeyAssumeSuccess := false;
        generateContent_calls := 1;
        openSelectKey_calls := 1 |}).
Proof.
  apply (@rejected_credential_opens_picker
           (host_with_picker true (Rejected cancelled) (Rejected entity_error))
           image_data image_type initial_state entity_error
           (picker true (Rejected cancelled)) (Rejected cancelled));
    reflexivity.
Defined.

(** X11: a cleaned response that does not parse, and whose error message
    does not happen to contain the credential signal, fails with the
    [MalformedJSON] message, which carries the parser's message and ends
    with the cleaned text; the flag is untouched. *)
Theorem unparseable_response_is_MalformedJSON
        (h : Host) (img mime text jsonStr : jsstring) (st : State) :
  isProcessEnvApiKeySet h = true ->
  generateContent h mime img = Resolved text ->
  clean_response text = Resolved jsonStr ->
  JSON.parse jsonStr = None ->
  includes entity_not_found
    (msg_not_json (SyntaxError_message h jsonStr) jsonStr) = false ->
  analyzeSkinImage h img mime st
  = (Rejected (Error (msg_not_json (SyntaxError_message h jsonStr) jsonStr)),
     after_call st)
  /\ error_kind
       (Error (msg_not_json (SyntaxError_message h jsonStr) jsonStr))
     = Some MalformedJSON
  /\ includes (SyntaxError_message h jsonStr)
       (msg_not_json (SyntaxError_message h jsonStr) jsonStr) = true
  /\ endsWith jsonStr
       (msg_not_json (SyntaxError_message h jsonStr) jsonStr) = true.
Proof.
  intros Hk Hg Hc Hp Hs.
  rewrite (analyzeSkinImage_unfold h img mime st Hk), Hg. cbn [and_then].
  unfold handle_response. rewrite Hc. cbn [and_then].
  unfold parse_json. rewrite Hp. cbn [and_then].
  rewrite handleApiKeyError_rethrows
    by (unfold matches_signal; cbn [err_message Error]; rewrite Hs;
        apply andb_false_r).
  split; [reflexivity|]. split; [apply msg_not_json_kind|]. split.
  - unfold msg_not_json. apply includes_app.
  - unfold msg_not_json. rewrite !app_assoc. apply endsWith_app.
Qed.

Lemma unparseable_response_is_MalformedJSON_witness :
  fst (analyzeSkinImage (host_answering prose_text) image_data image_type
         initial_state)
  = Rejected (Error (msg_not_json (js "Unexpected token") prose_text)).
Proof.
  apply (f_equal fst
           (proj1 (@unparseable_response_is_MalformedJSON
                     (host_answering prose_text) image_data image_type
                     prose_text prose_text initial_state
                     eq_refl eq_refl eq_refl eq_refl eq_refl))).
Defined.

(** X12: a cleaned response that does not parse and contains the text
    'Requested entity was not found.' is not reported as malformed JSON:
    its error message quotes the response, so the recovery takes it for a
    rejected credential, clears the flag and throws one of its three
    credential errors. *)
Theorem unparseable_response_with_signal_is_credential_error
        (h : Host) (img mime text jsonStr : jsstring) (st : State) :
  isProcessEnvApiKeySet h = true ->
  generateContent h mime img = Resolved text ->
  clean_response text = Resolved jsonStr ->
  JSON.parse jsonStr = None ->
  includes entity_not_found jsonStr = true ->
  exists code,
    fst (analyzeSkinImage h img mime st) = Rejected (Error code)
    /\ (code = API_KEY_INVALID_OR_UNSELECTED
        \/ code = API_KEY_RESELECTION_FAILED
        \/ code = API_KEY_REQUIRED_NO_AISTUDIO).
Proof.
  intros Hk Hg Hc Hp Hs.
  rewrite (analyzeSkinImage_unfold h img mime st Hk), Hg. cbn [and_then].
  unfold handle_response. rewrite Hc. cbn [and_then].
  unfold parse_json. rewrite Hp. cbn [and_then].
  set (e := Error (msg_not_json (SyntaxError_message h jsonStr) jsonStr)).
  assert (He : matches_signal e = true).
  { unfold matches_signal, e, msg_not_json. cbn [err_message Error].
    apply andb_true_iff. split; [reflexivity|].
    rewrite !app_assoc. now apply includes_suffix. }
  destruct (handleApiKeyError_signal_codes h e (after_call st) He)
    as (code & Hcode & Hcases).
  exists code. split; [|exact Hcases].
  destruct (handleApiKeyError h e (after_call st)) as [[[]|e'] st'];
    simpl in *; [discriminate Hcode | now injection Hcode as ->].
Qed.

Lemma unparseable_response_with_signal_is_credential_error_witness :
  analyzeSkinImage (host_answering apology_text) image_data image_type
    (after_call initial_state)
  = (Rejected (Error API_KEY_INVALID_OR_UNSELECTED),
     {| hasUserSelectedApiKeyAssumeSuccess := false;
        generateContent_calls := 2;
        openSelectKey_calls := 0 |})
  /\ exists code,
       fst (analyzeSkinImage (host_answering apology_text) image_data
              image_type (after_call initial_state))
       = Rejected (Error code)
       /\ (code = API_KEY_INVALID_OR_UNSELECTED
           \/ code = API_KEY_RESELECTION_FAILED
           \/ code = API_KEY_REQUIRED_NO_AISTUDIO).
Proof.
  split; [vm_compute; reflexivity|].
  apply (@unparseable_response_with_signal_is_credential_error
           (host_answering apology_text) image_data image_type
           apology_text apology_text (after_call initial_state));
    vm_compute; reflexivity.
Defined.

(** X13: when the top-level check and the issues pass, the first of the
    four recommendations, in the order morningRoutine, eveningRoutine,
    weeklyTreatments, lifestyleTips, that is not a list of strings makes
    the call fail with the [InvalidRecommendation] error naming it. *)
Theorem malformed_recommendation_is_rejected
        (h : Host) (img mime : jsstring) (st : State) (v : jsval)
        (key : jsstring) :
  parsedResult h img mime = Some v ->
  top_level_malformed v = false ->
  first_malformed_issue (get v (js "issues")) = None ->
  first_malformed_recommendation (get v (js "recommendations")) = Some key ->
  analyzeSkinImage h img mime st
  = (Rejected (Error (msg_recommendation key)), after_call st)
  /\ error_kind (Error (msg_recommendation key))
     = Some (InvalidRecommendation key)
  /\ names_key key (Error (msg_recommendation key)) = true.
Proof.
  intros Hp Ht Hi Hr.
  rewrite (analyzeSkinImage_validates h img mime st Hp).
  unfold first_malformed_recommendation in Hr.
  destruct (find_first _ _ Hr) as (before & after & Hl & Hbad & Hgood).
  assert (Hkey : In key requiredRecommendationKeys).
  { rewrite Hl. apply in_or_app. right. now left. }
  split.
  - f_equal. unfold validate, validate_top_level. rewrite Ht.
    cbn [and_then].
    rewrite for_of_resolved.
    2:{ intros k Hk. apply check_issue_resolved_iff.
        unfold first_malformed_issue in Hi.
        exact (find_none _ _ Hi k Hk). }
    cbn [and_then]. rewrite Hl.
    rewrite (@for_of_first _ before after key _
               (Error (msg_recommendation key))); [reflexivity| |].
    + intros y Hy. apply check_recommendation_resolved_iff. now apply Hgood.
    + destruct (check_recommendation _ key) as [[]|e] eqn:Ec.
      * apply check_recommendation_resolved_iff in Ec. congruence.
      * now rewrite (check_recommendation_rejected _ _ Ec).
  - clear - Hkey.
    repeat (destruct Hkey as [<- | Hkey];
            [split; vm_compute; reflexivity|]).
    destruct Hkey.
Qed.

Lemma malformed_recommendation_is_rejected_witness :
  analyzeSkinImage (host_answering bad_routine_text) image_data image_type
    initial_state
  = (Rejected (Error (msg_recommendation (js "eveningRoutine"))),
     after_call initial_state).
Proof.
  apply (@malformed_recommendation_is_rejected
           (host_answering bad_routine_text) image_data image_type
           initial_state (parsed bad_routine_text) (js "eveningRoutine"));
    vm_compute; reflexivity.
Defined.

(** X14: the range of [overallScore] is not checked: a response that
    passes the validations still passes them, and is returned as it is,
    with any number at all as its [overallScore]. *)
Theorem overallScore_range_is_not_checked
        (h : Host) (img mime : jsstring) (st : State) (v : jsval)
        (n : number) :
  validate v = Resolved v ->
  parsedResult h img mime = Some (set v (js "overallScore") (JNumber n)) ->
  analyzeSkinImage h img mime st
  = (Resolved (set v (js "overallScore") (JNumber n)), after_call st)
  /\ get (set v (js "overallScore") (JNumber n)) (js "overallScore")
     = JNumber n.
Proof.
  intros Hv Hp. rewrite (analyzeSkinImage_validates h img mime st Hp).
  apply validate_accepts_iff in Hv as (Ht & Hi & Hr).
  pose proof Ht as Ht'.
  apply top_level_ok_inv in Ht' as (fields & -> & _).
  cbn [set]. rewrite !get_object in *.
  split; [|apply lookup_set_field_same]. f_equal.
  apply validate_accepts_iff. rewrite !get_object.
  rewrite !lookup_set_field_other by reflexivity.
  split; [|split; assumption].
  revert Ht. unfold top_level_malformed. rewrite !get_object.
  rewrite lookup_set_field_same.
  rewrite !lookup_set_field_other by reflexivity.
  rewrite !orb_false_iff, !negb_false_iff. cbn [truthy typeof jstype_eqb].
  tauto.
Qed.

Lemma overallScore_range_is_not_checked_witness :
  parsed score_250_text
  = set valid_value (js "overallScore") (JNumber (Num 250 0))
  /\ analyzeSkinImage (host_answering score_250_text) image_data image_type
       initial_state
     = (Resolved (set valid_value (js "overallScore") (JNumber (Num 250 0))),
        after_call initial_state).
Proof.
  split; [vm_compute; reflexivity|].
  apply (@overallScore_range_is_not_checked (host_answering score_250_text)
           image_data image_type initial_state valid_value (Num 250 0));
    vm_compute; reflexivity.
Defined.

(** X15: the type of [explainability] is not checked: a response that
    passes the validations still passes them, and is returned as it is,
    with any truthy value, a number or a list or an object, as its
    [explainability]. *)
Theorem explainability_type_is_not_checked
        (h : Host) (img mime : jsstring) (st : State) (v x : jsval) :
  validate v = Resolved v ->
  truthy x = true ->
  parsedResult h img mime = Some (set v (js "explainability") x) ->
  analyzeSkinImage h img mime st
  = (Resolved (set v (js "explainability") x), after_call st)
  /\ get (set v (js "explainability") x) (js "explainability") = x.
Proof.
  intros Hv Hx Hp. rewrite (analyzeSkinImage_validates h img mime st Hp).
  apply validate_accepts_iff in Hv as (Ht & Hi & Hr).
  pose proof Ht as Ht'.
  apply top_level_ok_inv in Ht' as (fields & -> & _).
  cbn [set]. rewrite !get_object in *.
  split; [|apply lookup_set_field_same]. f_equal.
  apply validate_accepts_iff. rewrite !get_object.
  rewrite !lookup_set_field_other by reflexivity.
  split; [|split; assumption].
  revert Ht. unfold top_level_malformed. rewrite !get_object.
  rewrite lookup_set_field_same.
  rewrite !lookup_set_field_other by reflexivity.
  rewrite !orb_false_iff, !negb_false_iff. cbn [truthy].
  rewrite Hx. tauto.
Qed.

Lemma explainability_type_is_not_checked_witness :
  parsed list_explainability_text
  = set valid_value (js "explainability") (JArray [JString (js "x")])
  /\ analyzeSkinImage (host_answering list_explainability_text) image_data
       image_type initial_state
     = (Resolved (set valid_value (js "explainability")
                    (JArray [JString (js "x")])),
        after_call initial_state).
Proof.
  split; [vm_compute; reflexivity|].
  apply (@explainability_type_is_not_checked
           (host_answering list_explainability_text)
           image_data image_type initial_state valid_value
           (JArray [JString (js "x")]));
    vm_compute; reflexivity.
Defined.

(* ================================================================== *)
(** * Further facts about strings and parsing                          *)
(* ================================================================== *)

Module MoreJSFacts.

Import JS GeminiService ScanPage ImageUtils.
Import JSFacts.
Local Open Scope list_scope.

Lemma trimStart_idem (s : jsstring) : trimStart (trimStart s) = trimStart s.
Proof.
  induction s as [|c s IH]; simpl; [reflexivity|].
  destruct (isWhiteSpace c) eqn:E; [exact IH|]. simpl. now rewrite E.
Qed.

(** What [trimStart] leaves is empty or starts with a character it keeps. *)
Lemma trimStart_head (s : jsstring) :
  trimStart s = []
  \/ exists c r, trimStart s = c :: r /\ isWhiteSpace c = false.
Proof.
  induction s as [|c s IH]; simpl; [now left|].
  destruct (isWhiteSpace c) eqn:E; [exact IH|]. right. eauto.
Qed.

Lemma trimStart_snoc_keep (s : jsstring) (c : N) :
  isWhiteSpace c = false -> trimStart (s ++ [c]) = trimStart s ++ [c].
Proof.
  intros Hc. induction s as [|x s IH]; simpl.
  - now rewrite Hc.
  - destruct (isWhiteSpace x); [exact IH | reflexivity].
Qed.

Lemma trimEnd_cons_keep (c : N) (r : jsstring) :
  isWhiteSpace c = false -> trimEnd (c :: r) = c :: trimEnd r.
Proof.
  intros Hc. unfold trimEnd. simpl.
  rewrite trimStart_snoc_keep by exact Hc.
  now rewrite rev_app_distr.
Qed.

Lemma trimEnd_idem (s : jsstring) : trimEnd (trimEnd s) = trimEnd s.
Proof. unfold trimEnd. now rewrite rev_involutive, trimStart_idem. Qed.

(** Trimming twice is trimming once. *)
Lemma trim_idem (s : jsstring) : trim (trim s) = trim s.
Proof.
  unfold trim. destruct (trimStart_head s) as [E | (c & r & E & Hc)];
    rewrite E.
  - reflexivity.
  - rewrite trimEnd_cons_keep by exact Hc. simpl. rewrite Hc.
    rewrite trimEnd_cons_keep by exact Hc. now rewrite trimEnd_idem.
Qed.

(** A text after white space keeps its first character when trimmed, if
    that is no white space. *)
Lemma trim_head_keep (w r : jsstring) (c : N) :
  all_ws w = true -> isWhiteSpace c = false ->
  trim (w ++ c :: r) = c :: trimEnd r.
Proof.
  intros Hw Hc. unfold trim. rewrite trimStart_ws_app by exact Hw.
  simpl. rewrite Hc. now apply trimEnd_cons_keep.
Qed.

(** No JSON text starts with a backtick. *)
Lemma parse_backtick (r : jsstring) : JSON.parse (96%N :: r) = None.
Proof.
  unfold JSON.parse.
  assert (E : forall fuel, JSON.parse_value fuel (96%N :: r) = None).
  { intros [|fuel]; reflexivity. }
  now rewrite E.
Qed.

Lemma until_comma_no_comma (s : jsstring) :
  no_comma s = true -> until_comma s = s.
Proof.
  induction s as [|c s IH]; simpl; [reflexivity|].
  intros H. apply andb_true_iff in H as [Hc Hs].
  apply negb_true_iff in Hc. rewrite Hc. now rewrite IH.
Qed.

(** What [split(',')[1]] finds after a prefix without comma. *)
Lemma split_comma_1_prefix (prefix rest : jsstring) :
  no_comma prefix = true ->
  split_comma_1 (prefix ++ 44%N :: rest) = until_comma rest.
Proof.
  induction prefix as [|c s IH]; simpl; [reflexivity|].
  intros H. apply andb_true_iff in H as [Hc Hs].
  apply negb_true_iff in Hc. rewrite Hc. now apply IH.
Qed.

Lemma no_comma_app (a b : jsstring) :
  no_comma (a ++ b) = no_comma a && no_comma b.
Proof. apply forallb_app. Qed.

(** The data URL of a file gives its content back. *)
Lemma split_comma_1_data_url (type base64 : jsstring) :
  no_comma type = true -> no_comma base64 = true ->
  split_comma_1 (data_url type base64) = base64.
Proof.
  intros Ht Hb. unfold data_url.
  change (js ";base64,") with (js ";base64" ++ [44%N]).
  rewrite <- !app_assoc. rewrite !app_assoc. rewrite <- app_assoc.
  change ([44%N] ++ base64) with (44%N :: base64).
  rewrite split_comma_1_prefix.
  - now apply until_comma_no_comma.
  - rewrite !no_comma_app, Ht. reflexivity.
Qed.

End MoreJSFacts.

(* ================================================================== *)
(** * Facts about the two variants of the service                      *)
(* ================================================================== *)

Module VariantFacts.

Import JS GeminiService.
Import JSFacts ServiceFacts MoreServiceFacts MoreJSFacts.
Local Open Scope list_scope.

(** What the recovery makes of an error, as the [catch] blocks use it:
    it always throws, so the statement after it is never reached. *)
Lemma handleApiKeyError_then {A} (h : Host) (e : JsError) (k : unit -> M A)
      (st : State) :
  exists e',
    handleApiKeyError h e st = (Rejected e', snd (handleApiKeyError h e st))
    /\ bind (handleApiKeyError h e) k st
       = (Rejected e', snd (handleApiKeyError h e st))
    /\ (e' = e /\ matches_signal e = false
        \/ matches_signal e = true
           /\ exists code,
                e' = Error code
                /\ (code = API_KEY_INVALID_OR_UNSELECTED
                    \/ code = API_KEY_RESELECTION_FAILED
                    \/ code = API_KEY_REQUIRED_NO_AISTUDIO)).
Proof.
  unfold bind. destruct (matches_signal e) eqn:Hs.
  - destruct (handleApiKeyError_signal_codes h e st Hs) as (code & Hc & Hk).
    destruct (handleApiKeyError h e st) as [[[]|e'] st']; simpl in *;
      [discriminate Hc|].
    injection Hc as ->. exists (Error code). eauto 8.
  - rewrite (handleApiKeyError_rethrows h e st Hs). simpl. eauto 8.
Qed.

(** An error of [analyzeSkinImage] never carries the credential signal:
    it went through the recovery already. *)
Lemma analyzeSkinImage_error_no_signal (h : Host) (img mime : jsstring)
      (st st' : State) (e : JsError) :
  analyzeSkinImage h img mime st = (Rejected e, st') ->
  matches_signal e = false.
Proof.
  destruct (isProcessEnvApiKeySet h) eqn:Hk.
  - rewrite (analyzeSkinImage_unfold h img mime st Hk).
    destruct (and_then _ _) as [v|e0]; [discriminate|].
    destruct (@handleApiKeyError_then unit h e0 (fun _ => ret tt)
                (after_call st)) as (e' & He & _ & Hcases).
    rewrite He. intros H. injection H as <- _.
    destruct Hcases as [[-> Hs] | [_ (code & -> & [-> | [-> | ->]])]];
      [exact Hs | reflexivity | reflexivity | reflexivity].
  - unfold analyzeSkinImage. rewrite Hk. cbn [negb]. unfold throw.
    intros H. injection H as <- _. reflexivity.
Qed.

(** With a credential in the environment, the schema variant is one
    remote call, the parse of the trimmed text, and the recovery if
    either failed. *)
Lemma schema_analyzeSkinImage_unfold (h : Host) (img mime : jsstring)
      (st : State) :
  isProcessEnvApiKeySet h = true ->
  SchemaService.analyzeSkinImage h img mime st
  = match
      and_then (generateContent h mime img) (fun text =>
        match JSON.parse (trim text) with
        | Some v => Resolved v
        | None =>
            Rejected (SchemaService.SyntaxError
                        (SyntaxError_message h (trim text)))
        end)
    with
    | Resolved v => (Resolved v, after_call st)
    | Rejected e =>
        match handleApiKeyError h e (after_call st) with
        | (Resolved _, st') =>
            (Rejected (Error SchemaService.msg_unhandled), st')
        | (Rejected e', st') => (Rejected e', st')
        end
    end.
Proof.
  intros Hk. unfold SchemaService.analyzeSkinImage. rewrite Hk. cbn [negb].
  unfold try_catch, bind, call_generateContent, await, throw, ret.
  fold (after_call st).
  destruct (generateContent h mime img) as [text|e]; cbn [and_then].
  - destruct (JSON.parse (trim text)) as [v|]; [reflexivity|].
    destruct (handleApiKeyError h _ (after_call st)) as [[[]|e'] st'];
      reflexivity.
  - destruct (handleApiKeyError h e (after_call st)) as [[[]|e'] st'];
      reflexivity.
Qed.

(** Without fence markers at its ends, the cleaned text is the trimmed
    text. *)
Lemma clean_response_without_fence (text : jsstring) :
  startsWith fence_json (trim text) = false ->
  endsWith fence (trim text) = false ->
  clean_response text
  = if nonempty (trim text) then Resolved (trim text)
    else Rejected (Error msg_empty).
Proof.
  intros Hs He. unfold clean_response, strip_fences.
  rewrite Hs, He, trim_idem.
  destruct (nonempty (trim text)); reflexivity.
Qed.

End VariantFacts.

(* ================================================================== *)
(** * Further properties: the schema variant of the service            *)
(* ================================================================== *)

Import MoreJSFacts VariantFacts.

(** X16: on a response without fence markers at its ends, the validating
    variant resolves with [v] exactly when the schema variant resolves
    with [v] and [v] passes the validations, and then both end in the
    same state. Nothing is said of the states when either fails. *)
Theorem variants_agree_without_fence
        (h : Host) (img mime text : jsstring) (st st' : State) (v : jsval) :
  generateContent h mime img = Resolved text ->
  startsWith fence_json (trim text) = false ->
  endsWith fence (trim text) = false ->
  (analyzeSkinImage h img mime st = (Resolved v, st')
   <-> SchemaService.analyzeSkinImage h img mime st = (Resolved v, st')
       /\ validate v = Resolved v).
Proof.
  intros Hg Hs He.
  destruct (isProcessEnvApiKeySet h) eqn:Hk.
  2:{ unfold analyzeSkinImage, SchemaService.analyzeSkinImage.
      rewrite Hk. cbn [negb]. unfold throw. split.
      - discriminate.
      - intros [H _]. discriminate H. }
  rewrite (analyzeSkinImage_unfold h img mime st Hk).
  rewrite (schema_analyzeSkinImage_unfold h img mime st Hk).
  rewrite Hg. cbn [and_then]. unfold handle_response.
  rewrite (clean_response_without_fence text Hs He).
  assert (Hne : JSON.parse [] = None) by reflexivity.
  destruct (trim text) as [|c r] eqn:Et; cbn [nonempty and_then].
  - rewrite Hne. split.
    + destruct (handleApiKeyError h _ _) as [[[]|e'] st'']; discriminate.
    + intros [H _].
      destruct (handleApiKeyError h _ _) as [[[]|e'] st'']; discriminate H.
  - unfold parse_json. destruct (JSON.parse (c :: r)) as [v0|];
      cbn [and_then].
    + destruct (validate v0) as [r0|e] eqn:Ev.
      * pose proof (validate_resolved _ Ev) as ->. split.
        -- intros H. injection H as <- <-. now split.
        -- intros [H _]. exact H.
      * split.
        -- destruct (handleApiKeyError h _ _) as [[[]|e'] st''];
             discriminate.
        -- intros [H Hv]. injection H as <- _. congruence.
    + split.
      * destruct (handleApiKeyError h _ _) as [[[]|e'] st'']; discriminate.
      * intros [H _].
        destruct (handleApiKeyError h _ _) as [[[]|e'] st'']; discriminate H.
Qed.

Lemma variants_agree_without_fence_witness :
  SchemaService.analyzeSkinImage (host_answering valid_text) image_data
    image_type initial_state
  = (Resolved valid_value, after_call initial_state).
Proof.
  apply (proj1 (@variants_agree_without_fence
                  (host_answering valid_text) image_data image_type
                  valid_text initial_state (after_call initial_state)
                  valid_value eq_refl eq_refl eq_refl)).
  vm_compute. reflexivity.
Defined.

(** X17: the schema variant strips no fence: whatever is inside, a
    response that starts, after white space, with a backtick makes it
    fail. *)
Theorem schema_variant_rejects_fenced
        (h : Host) (img mime w r : jsstring) (st : State) :
  isProcessEnvApiKeySet h = true ->
  all_ws w = true ->
  generateContent h mime img = Resolved (w ++ 96%N :: r) ->
  exists e,
    fst (SchemaService.analyzeSkinImage h img mime st) = Rejected e.
Proof.
  intros Hk Hw Hg.
  rewrite (schema_analyzeSkinImage_unfold h img mime st Hk), Hg.
  cbn [and_then]. rewrite (@trim_head_keep w r 96%N Hw eq_refl).
  rewrite parse_backtick.
  destruct (handleApiKeyError h _ _) as [[[]|e'] st']; simpl; eauto.
Qed.

Lemma schema_variant_rejects_fenced_witness :
  exists e,
    fst (SchemaService.analyzeSkinImage
           (host_answering (fenced_json [] [10%N] valid_text [10%N] []))
           image_data image_type initial_state)
    = Rejected e.
Proof.
  apply (@schema_variant_rejects_fenced
           (host_answering (fenced_json [] [10%N] valid_text [10%N] []))
           image_data image_type []
           (skipn 1 (fenced_json [] [10%N] valid_text [10%N] []))
           initial_state);
    reflexivity.
Defined.

(** X18: the schema variant never throws its own 'Unhandled error': an
    error it ends with is the missing-credential error, the error of the
    remote call, the [SyntaxError] of [JSON.parse], or one of the three
    credential errors of the recovery. *)
Theorem schema_variant_errors
        (h : Host) (img mime : jsstring) (st st' : State) (e : JsError) :
  SchemaService.analyzeSkinImage h img mime st = (Rejected e, st') ->
  e = Error msg_no_api_key
  \/ generateContent h mime img = Rejected e
  \/ (exists text,
        generateContent h mime img = Resolved text
        /\ JSON.parse (trim text) = None
        /\ e = SchemaService.SyntaxError (SyntaxError_message h (trim text)))
  \/ e = Error API_KEY_INVALID_OR_UNSELECTED
  \/ e = Error API_KEY_RESELECTION_FAILED
  \/ e = Error API_KEY_REQUIRED_NO_AISTUDIO.
Proof.
  destruct (isProcessEnvApiKeySet h) eqn:Hk.
  2:{ unfold SchemaService.analyzeSkinImage. rewrite Hk. cbn [negb].
      unfold throw. intros H. injection H as <- _. now left. }
  rewrite (schema_analyzeSkinImage_unfold h img mime st Hk).
  destruct (generateContent h mime img) as [text|e0] eqn:Hg;
    cbn [and_then].
  - destruct (JSON.parse (trim text)) as [v|] eqn:Hp; [discriminate|].
    destruct (@handleApiKeyError_then unit h
                (SchemaService.SyntaxError (SyntaxError_message h (trim text)))
                (fun _ => ret tt) (after_call st)) as (e' & He & _ & Hcases).
    rewrite He. intros H. injection H as <- _.
    destruct Hcases as [[-> _] | [_ (code & -> & [-> | [-> | ->]])]];
      eauto 8.
  - destruct (@handleApiKeyError_then unit h e0 (fun _ => ret tt)
                (after_call st)) as (e' & He & _ & Hcases).
    rewrite He. intros H. injection H as <- _.
    destruct Hcases as [[-> _] | [_ (code & -> & [-> | [-> | ->]])]];
      eauto 8.
Qed.

Lemma schema_variant_errors_witness :
  let h := host_answering prose_text in
  let e := SchemaService.SyntaxError (js "Unexpected token") in
  e = Error msg_no_api_key
  \/ generateContent h image_type image_data = Rejected e
  \/ (exists text,
        generateContent h image_type image_data = Resolved text
        /\ JSON.parse (trim text) = None
        /\ e = SchemaService.SyntaxError (SyntaxError_message h (trim text)))
  \/ e = Error API_KEY_INVALID_OR_UNSELECTED
  \/ e = Error API_KEY_RESELECTION_FAILED
  \/ e = Error API_KEY_REQUIRED_NO_AISTUDIO.
Proof.
  apply (@schema_variant_errors (host_answering prose_text) image_data
           image_type initial_state (after_call initial_state)
           (SchemaService.SyntaxError (js "Unexpected token"))).
  vm_compute. reflexivity.
Defined.

(* ================================================================== *)
(** * Further facts about the handlers of the scan page                *)
(* ================================================================== *)

Module HandlerFacts.

Import JS GeminiService ScanPage ImageUtils.
Local Open Scope list_scope.

(** What a converted file leaves in the cells. *)
Lemma handleFileChange_resolved (type base64 : jsstring) (p : Page) :
  let p1 := handleFileChange (Some (type, Resolved base64)) p in
  capturedImage (ui p1) = Some (data_url type base64)
  /\ imageMimeType (ui p1) = Some type
  /\ stream (ui p1) = None
  /\ loading (ui p1) = false
  /\ service p1 = service p.
Proof.
  destruct p as [c st cam es m nav].
  unfold handleFileChange, release_stream, data_url.
  cbn [ui with_ui setError setLoading setCapturedImage setImageMimeType
       stream loading isInitializing error capturedImage imageMimeType
       apiKeyRequired cameraEnabled cameraUnavailable service camera
       effect_stream mounted navigated].
  destruct (stream c) as [id|] eqn:Es;
    cbn [ui with_ui with_camera setError setLoading setCapturedImage
         setImageMimeType setStream setCameraEnabled
         stream loading isInitializing error capturedImage imageMimeType
         apiKeyRequired cameraEnabled cameraUnavailable service camera
         effect_stream mounted navigated];
    repeat split; assumption.
Qed.

(** Where Analyze Skin goes when the service resolves. *)
Lemma handleAnalyze_resolved (h : Host) (p : Page) (image mime : jsstring)
      (v : jsval) (st : State) :
  capturedImage (ui p) = Some image ->
  imageMimeType (ui p) = Some mime ->
  nonempty image = true ->
  nonempty mime = true ->
  analyzeSkinImage h (split_comma_1 image) mime (service p)
  = (Resolved v, st) ->
  navigated (handleAnalyze h p) = Some v
  /\ service (handleAnalyze h p) = st
  /\ mounted (handleAnalyze h p) = false.
Proof.
  intros Hi Hm Hni Hnm Ha. unfold handleAnalyze.
  rewrite Hi, Hm, Hni, Hnm. cbn [andb].
  cbn [service with_ui]. rewrite Ha.
  unfold unmount, cleanup.
  cbn [effect_stream with_ui with_service].
  destruct (effect_stream p); repeat split.
Qed.

End HandlerFacts.

Import HandlerFacts.

(* ================================================================== *)
(** * Further properties: the scan page and the file reader            *)
(* ================================================================== *)

Import ImageUtils.

(** X19: in no state the page can reach is Take Photo on screen or a
    stream stored, and no stream the camera granted is ever stopped: the
    only way to an image is the upload. *)
Theorem take_photo_is_never_offered (p : Page) :
  reachable p ->
  (forall imageData, enabled (TakePhoto imageData) p = false)
  /\ stream (ui p) = None
  /\ stops (camera p) = []
  /\ active_streams (camera p) = seq 0 (acquired (camera p)).
Proof.
  intros H. pose proof (reachable_leaks_every_stream H) as (Ha & _).
  apply reachable_holds_no_stream in H as (Hs & Hc & _ & Hst).
  repeat split; try assumption.
  intros imageData. unfold enabled. rewrite Hc.
  now rewrite andb_false_r, andb_false_r.
Qed.

Lemma take_photo_is_never_offered_witness :
  enabled (TakePhoto image_data) (mount host0 CamGranted) = false
  /\ acquired (camera (mount host0 CamGranted)) = 1.
Proof.
  split; [|reflexivity].
  apply (@take_photo_is_never_offered (mount host0 CamGranted)).
  apply reachable_mount.
Defined.

(** X20: when the credential check passes and the camera fails at mount,
    for whatever reason, the page asks for no other stream, marks the
    camera unavailable, shows a message, and offers the upload but not
    Take Photo. *)
Theorem camera_failure_falls_back_to_upload
        (h : Host) (name message : jsstring) (st : State) :
  checkAndPromptApiKey h initial_state = (Resolved tt, st) ->
  let p := mount h (CamFailed name message) in
  (forall file, enabled (ChooseFile file) p = true)
  /\ (forall imageData, enabled (TakePhoto imageData) p = false)
  /\ cameraUnavailable (ui p) = true
  /\ acquired (camera p) = 0
  /\ service p = st
  /\ exists m, error (ui p) = Some m /\ nonempty m = true.
Proof.
  intros Hc p. subst p. unfold mount, init. cbn [service ui].
  rewrite Hc.
  destruct (str_eqb name (js "NotAllowedError")
            || str_eqb name (js "PermissionDeniedError"));
    [|destruct (str_eqb name (js "NotFoundError"))];
    cbn -[js app]; repeat split; eauto.
Qed.

Lemma camera_failure_falls_back_to_upload_witness :
  enabled (ChooseFile None)
    (mount host0 (CamFailed (js "NotFoundError") (js "no device"))) = true.
Proof.
  apply (@camera_failure_falls_back_to_upload host0 (js "NotFoundError")
           (js "no device")
           (snd (checkAndPromptApiKey host0 initial_state)) eq_refl).
Defined.

(** X21: when the credential check fails at mount, the camera is not
    asked for. The credential prompt is shown if the error is
    [API_KEY_REQUIRED_NO_AISTUDIO] or [API_KEY_SELECTION_FAILED]; for any
    other error the capture block with its upload is shown instead. *)
Theorem failed_credential_check_skips_camera
        (h : Host) (cam : CamOutcome) (e : JsError) (st : State) :
  checkAndPromptApiKey h initial_state = (Rejected e, st) ->
  let p := mount h cam in
  acquired (camera p) = 0
  /\ service p = st
  /\ key_prompt_shown (ui p)
     = (message_is e API_KEY_REQUIRED_NO_AISTUDIO
        || message_is e API_KEY_SELECTION_FAILED)
  /\ (forall file,
         enabled (ChooseFile file) p = negb (key_prompt_shown (ui p)))
  /\ (forall imageData, enabled (TakePhoto imageData) p = false)
  /\ exists m, error (ui p) = Some m.
Proof.
  intros Hc p. subst p. unfold mount, init. cbn [service ui].
  rewrite Hc.
  destruct (message_is e API_KEY_REQUIRED_NO_AISTUDIO
            || message_is e API_KEY_SELECTION_FAILED);
    cbn -[js app]; repeat split; eauto.
Qed.

Lemma failed_credential_check_skips_camera_witness :
  key_prompt_shown (ui (mount host_without_credential CamGranted)) = true
  /\ acquired (camera (mount host_without_credential CamGranted)) = 0.
Proof.
  split; [reflexivity|].
  apply (@failed_credential_check_skips_camera host_without_credential
           CamGranted (Error API_KEY_REQUIRED_NO_AISTUDIO) initial_state
           eq_refl).
Defined.


(** X23: when the analysis fails, Analyze Skin leaves the captured image
    and its type in place, stays on the page and ends the loading state
    with a message; the recovery the page runs on the error changes
    nothing more, since the error went through it already, so one click
    makes one remote call and opens at most one dialog. The credential
    prompt comes up for the three credential errors. *)
Theorem failed_analysis_keeps_image
        (h : Host) (p : Page) (image mime : jsstring) (e : JsError)
        (st : State) :
  capturedImage (ui p) = Some image ->
  imageMimeType (ui p) = Some mime ->
  nonempty image = true ->
  nonempty mime = true ->
  analyzeSkinImage h (split_comma_1 image) mime (service p)
  = (Rejected e, st) ->
  let p' := handleAnalyze h p in
  service p' = st
  /\ capturedImage (ui p') = Some image
  /\ imageMimeType (ui p') = Some mime
  /\ navigated p' = navigated p
  /\ mounted p' = mounted p
  /\ camera p' = camera p
  /\ loading (ui p') = false
  /\ (exists m, error (ui p') = Some m)
  /\ apiKeyRequired (ui p')
     = (apiKeyRequired (ui p)
        || message_is e API_KEY_INVALID_OR_UNSELECTED
        || message_is e API_KEY_RESELECTION_FAILED
        || message_is e API_KEY_REQUIRED_NO_AISTUDIO).
Proof.
  intros Hi Hm Hni Hnm Ha p'. subst p'. unfold handleAnalyze.
  rewrite Hi, Hm, Hni, Hnm. cbn [andb].
  cbn [service with_ui]. rewrite Ha. cbn [service with_service].
  rewrite (handleApiKeyError_rethrows h e st
             (analyzeSkinImage_error_no_signal _ _ _ _ Ha)).
  destruct p as [c st0 cam es m nav]. cbn [ui] in Hi, Hm.
  destruct (message_is e API_KEY_INVALID_OR_UNSELECTED);
    [|destruct (message_is e API_KEY_RESELECTION_FAILED);
      [|destruct (message_is e API_KEY_REQUIRED_NO_AISTUDIO)]];
    cbn -[js app]; rewrite ?orb_true_r, ?orb_false_r;
    repeat split; eauto.
Qed.

Lemma failed_analysis_keeps_image_witness :
  let p := handleFileChange (Some (image_type, Resolved image_data))
             (mount host0 CamGranted) in
  capturedImage (ui (handleAnalyze (host_answering prose_text) p))
  = Some (data_url image_type image_data).
Proof.
  apply (@failed_analysis_keeps_image (host_answering prose_text)
           (handleFileChange (Some (image_type, Resolved image_data))
              (mount host0 CamGranted))
           (data_url image_type image_data) image_type
           (Error (msg_not_json (js "Unexpected token") prose_text))
           (after_call (snd (checkAndPromptApiKey host0 initial_state))));
    vm_compute; reflexivity.
Defined.

(** X24: when the remote call is refused for the credential and the host
    has a picker, Analyze Skin opens the dialog once and then shows the
    credential prompt with its message, whether the dialog succeeded or
    not; the image stays. *)
Theorem rejected_credential_shows_prompt
        (h : Host) (p : Page) (image mime : jsstring) (e : JsError)
        (a : AIStudio) (dialog : settled unit) :
  capturedImage (ui p) = Some image ->
  imageMimeType (ui p) = Some mime ->
  nonempty image = true ->
  nonempty mime = true ->
  isProcessEnvApiKeySet h = true ->
  generateContent h mime (split_comma_1 image) = Rejected e ->
  matches_signal e = true ->
  window_aistudio h = Some a ->
  openSelectKey a = Some dialog ->
  let p' := handleAnalyze h p in
  apiKeyRequired (ui p') = true
  /\ error (ui p')
     = Some (js "The API key is invalid or selection was cancelled. Please select a valid API key.")
  /\ openSelectKey_calls (service p') = S (openSelectKey_calls (service p))
  /\ generateContent_calls (service p')
     = S (generateContent_calls (service p))
  /\ hasUserSelectedApiKeyAssumeSuccess (service p')
     = match dialog with Resolved _ => true | Rejected _ => false end
  /\ capturedImage (ui p') = Some image
  /\ navigated p' = navigated p.
Proof.
  intros Hi Hm Hni Hnm Hk Hg Hs Hw Ho p'. subst p'.
  assert (Ha : analyzeSkinImage h (split_comma_1 image) mime (service p)
               = (Rejected (Error (match dialog with
                                   | Resolved _ => API_KEY_INVALID_OR_UNSELECTED
                                   | Rejected _ => API_KEY_RESELECTION_FAILED
                                   end)),
                  {| hasUserSelectedApiKeyAssumeSuccess :=
                       match dialog with
                       | Resolved _ => true | Rejected _ => false
                       end;
                     generateContent_calls :=
                       S (generateContent_calls (service p));
                     openSelectKey_calls :=
                       S (openSelectKey_calls (service p)) |})).
  { rewrite (analyzeSkinImage_unfold h _ mime (service p) Hk), Hg.
    cbn [and_then]. unfold handleApiKeyError. rewrite Hs.
    unfold bind, write_flag, try_catch, call_openSelectKey, throw, ret.
    rewrite Hw, Ho. destruct dialog as [[]|e']; reflexivity. }
  unfold handleAnalyze. rewrite Hi, Hm, Hni, Hnm. cbn [andb].
  cbn [service with_ui]. rewrite Ha. cbn [service with_service].
  rewrite handleApiKeyError_rethrows by (destruct dialog; reflexivity).
  destruct p as [c st0 cam es m nav]. cbn [ui] in Hi, Hm.
  destruct dialog as [[]|e']; cbn -[js app]; repeat split; assumption.
Qed.

Lemma rejected_credential_shows_prompt_witness :
  let p := handleFileChange (Some (image_type, Resolved image_data))
             (mount host0 CamGranted) in
  apiKeyRequired
    (ui (handleAnalyze
           (host_with_picker true (Resolved tt) (Rejected entity_error)) p))
  = true.
Proof.
  apply (@rejected_credential_shows_prompt
           (host_with_picker true (Resolved tt) (Rejected entity_error))
           (handleFileChange (Some (image_type, Resolved image_data))
              (mount host0 CamGranted))
           (data_url image_type image_data) image_type entity_error
           (picker true (Resolved tt)) (Resolved tt));
    vm_compute; reflexivity.
Defined.

(** X25: [fileToBase64] gives back the base64 content of the data URL the
    reader produced. *)
Theorem fileToBase64_of_data_url (type base64 : jsstring) :
  no_comma type = true ->
  no_comma base64 = true ->
  fileToBase64 (Loaded (data_url type base64)) = Resolved base64.
Proof.
  intros Ht Hb. unfold fileToBase64.
  now rewrite split_comma_1_data_url.
Qed.

Lemma fileToBase64_of_data_url_witness :
  fileToBase64 (Loaded (data_url image_type image_data))
  = Resolved image_data.
Proof.
  apply (@fileToBase64_of_data_url image_type image_data); reflexivity.
Defined.

(** X26: a chosen file travels unchanged: the page stores the data URL of
    the file again with its type, holds no stream afterwards, and Analyze
    Skin hands the service exactly the base64 content and the type of the
    file, navigating away with what the service returns. *)
Theorem uploaded_file_is_what_is_analysed
        (h : Host) (p : Page) (type base64 : jsstring) (v : jsval)
        (st : State) :
  no_comma type = true ->
  no_comma base64 = true ->
  nonempty type = true ->
  analyzeSkinImage h base64 type (service p) = (Resolved v, st) ->
  let p1 :=
    handleFileChange
      (Some (type, fileToBase64 (Loaded (data_url type base64)))) p in
  capturedImage (ui p1) = Some (data_url type base64)
  /\ imageMimeType (ui p1) = Some type
  /\ stream (ui p1) = None
  /\ loading (ui p1) = false
  /\ navigated (handleAnalyze h p1) = Some v
  /\ service (handleAnalyze h p1) = st
  /\ mounted (handleAnalyze h p1) = false.
Proof.
  intros Ht Hb Hn Ha p1. subst p1.
  unfold fileToBase64. rewrite (split_comma_1_data_url type base64 Ht Hb).
  destruct (handleFileChange_resolved type base64 p)
    as (Hi & Hm & Hs & Hl & Hsv).
  rewrite <- Hsv in Ha.
  rewrite <- (split_comma_1_data_url type base64 Ht Hb) in Ha at 1.
  repeat (split; [assumption|]).
  apply (handleAnalyze_resolved h _ Hi Hm eq_refl Hn Ha).
Qed.

Lemma uploaded_file_is_what_is_analysed_witness :
  navigated
    (handleAnalyze (host_answering valid_text)
       (handleFileChange
          (Some (image_type,
                 fileToBase64 (Loaded (data_url image_type image_data))))
          (mount host0 CamGranted)))
  = Some valid_value.
Proof.
  apply (@uploaded_file_is_what_is_analysed (host_answering valid_text)
           (mount host0 CamGranted) image_type image_data valid_value
           (after_call (snd (checkAndPromptApiKey host0 initial_state))));
    vm_compute; reflexivity.
Defined.

(** X27: a file whose type is empty is previewed but cannot be analysed:
    Analyze Skin answers 'No image to analyze' and calls nothing. *)
Theorem file_without_type_cannot_be_analysed
        (h : Host) (p : Page) (base64 : jsstring) :
  let p1 := handleFileChange (Some ([], Resolved base64)) p in
  capturedImage (ui p1) = Some (data_url [] base64)
  /\ handleAnalyze h p1
     = with_ui
         (setError
            (Some (js "No image to analyze. Please take a photo or upload one."))
            (ui p1)) p1.
Proof.
  intros p1.
  assert (Hi : capturedImage (ui p1) = Some (data_url [] base64))
    by apply handleFileChange_resolved.
  assert (Hm : imageMimeType (ui p1) = Some [])
    by apply handleFileChange_resolved.
  split; [exact Hi|].
  unfold handleAnalyze. rewrite Hi, Hm. cbn [nonempty].
  now rewrite andb_false_r.
Qed.

(** X28: when the file cannot be read, the page is as it was, its stream
    included, but for the message, which reads 'Failed to process image:
    undefined': the event the reader fails with has no message. *)
Theorem unreadable_file_leaves_page (p : Page) (type : jsstring) :
  let p1 := handleFileChange (Some (type, fileToBase64 Failed)) p in
  error (ui p1) = Some (js "Failed to process image: undefined")
  /\ capturedImage (ui p1) = capturedImage (ui p)
  /\ imageMimeType (ui p1) = imageMimeType (ui p)
  /\ stream (ui p1) = stream (ui p)
  /\ camera p1 = camera p
  /\ service p1 = service p
  /\ loading (ui p1) = false.
Proof.
  destruct p as [c st cam es m nav]. repeat split.
Qed.

(* ================================================================== *)
(** * Further properties: the results page                             *)
(* ================================================================== *)

(** X29: every result [analyzeSkinImage] resolves with has its ten
    required issues in the list the results page shows, each with a
    numeric score. *)
Theorem result_shows_all_required_issues
        (h : Host) (img mime : jsstring) (st st' : State) (v : jsval) :
  analyzeSkinImage h img mime st = (Resolved v, st') ->
  exists shown,
    ResultsPage.issues v = Some shown
    /\ forall key, In key requiredIssueKeys ->
                   exists entry,
                     In (key, entry) shown
                     /\ typeof (get entry (js "score")) = Tnumber.
Proof.
  intros H. apply analyzeSkinImage_resolved_inv in H as (_ & Hv & _).
  apply validate_accepts_iff in Hv as (_ & Hi & _).
  pose proof (Hi (js "acne") (or_introl eq_refl)) as H0.
  destruct (well_formed_entry_is_object _ _ H0) as (ifs & _ & Eifs & _).
  unfold ResultsPage.issues. rewrite Eifs in *.
  eexists. split; [reflexivity|]. intros key Hkey.
  specialize (Hi key Hkey).
  destruct (well_formed_entry_is_object _ _ Hi) as (ifs' & efs & E & Hl).
  injection E as <-.
  assert (Hs : jstype_eqb (typeof (lookup (js "score") efs)) Tnumber = true).
  { unfold issue_malformed in Hi. rewrite get_object, Hl, get_object in Hi.
    apply orb_false_iff in Hi as [Hi _].
    apply orb_false_iff in Hi as [_ Hi]. now apply negb_false_iff in Hi. }
  exists (JObject efs). split.
  - apply filter_In. split.
    + clear - Hl. induction ifs as [|[k x] ifs IH]; simpl in Hl;
        [discriminate|].
      destruct (str_eqb k key) eqn:Ek.
      * apply str_eqb_eq in Ek. subst. now left.
      * right. now apply IH.
    + unfold ResultsPage.issue_shown. cbn [snd truthy andb].
      now rewrite get_object.
  - rewrite get_object.
    destruct (typeof (lookup (js "score") efs)); (reflexivity || discriminate).
Qed.

Lemma result_shows_all_required_issues_witness :
  exists shown,
    ResultsPage.issues valid_value = Some shown
    /\ forall key, In key requiredIssueKeys ->
                   exists entry,
                     In (key, entry) shown
                     /\ typeof (get entry (js "score")) = Tnumber.
Proof.
  apply (@result_shows_all_required_issues (host_answering valid_text)
           image_data image_type initial_state (after_call initial_state)
           valid_value).
  vm_compute. reflexivity.
Defined.

(** X30: the skin types the validation accepts have pairwise different
    descriptions on the results page, and so have the Fitzpatrick values;
    'unknown', and no other accepted value, gets the text for an
    undetermined value. *)
Theorem accepted_values_have_descriptions (s t : jsstring) :
  (In s skinTypes -> In t skinTypes ->
   (ResultsPage.getSkinTypeDescription s
    = ResultsPage.getSkinTypeDescription t -> s = t)
   /\ (ResultsPage.getSkinTypeDescription s
       = ResultsPage.skin_type_undetermined
       <-> s = js "unknown"))
  /\ (In s fitzpatrickScales -> In t fitzpatrickScales ->
      (ResultsPage.getFitzpatrickDescription s
       = ResultsPage.getFitzpatrickDescription t -> s = t)
      /\ (ResultsPage.getFitzpatrickDescription s
          = ResultsPage.fitzpatrick_undetermined
          <-> s = js "unknown")).
Proof.
  assert (D : forall (f : jsstring -> jsstring) (fallback : jsstring)
                     (l : list jsstring),
             forallb (fun a =>
               forallb (fun b => implb (str_eqb (f a) (f b)) (str_eqb a b)) l
               && Bool.eqb (str_eqb (f a) fallback) (str_eqb a (js "unknown")))
               l = true ->
             forall a b, In a l -> In b l ->
               (f a = f b -> a = b)
               /\ (f a = fallback <-> a = js "unknown")).
  { intros f fallback l H a b Ha Hb. rewrite forallb_forall in H.
    apply H in Ha. apply andb_true_iff in Ha as [Hinj Hfb].
    rewrite forallb_forall in Hinj. apply Hinj in Hb. split.
    - intros E. rewrite E, str_eqb_refl in Hb. now apply str_eqb_eq.
    - apply Bool.eqb_prop in Hfb. rewrite <- !str_eqb_eq. now rewrite Hfb. }
  split.
  - apply D. vm_compute. reflexivity.
  - apply D. vm_compute. reflexivity.
Qed.

Lemma accepted_values_have_descriptions_witness :
  ResultsPage.getSkinTypeDescription (js "oily")
  <> ResultsPage.getSkinTypeDescription (js "dry")
  /\ ResultsPage.getFitzpatrickDescription (js "unknown")
     = ResultsPage.fitzpatrick_undetermined.
Proof.
  split.
  - intros E.
    assert (K : js "oily" = js "dry").
    { apply (proj1 (@accepted_values_have_descriptions (js "oily") (js "dry")));
        [unfold skinTypes; simpl; tauto | unfold skinTypes; simpl; tauto
        | exact E]. }
    vm_compute in K. discriminate K.
  - apply (proj2 (@accepted_values_have_descriptions (js "unknown")
                    (js "unknown")));
      [unfold fitzpatrickScales; simpl; tauto
      | unfold fitzpatrickScales; simpl; tauto | reflexivity].
Defined.
